(** * The engineer simulation of the 3D HVAC scene

    A shallow embedding of the [Engineer] class of the two scene scripts of
    the repository, and the properties of its per-frame simulation.

    - [Part000] embeds the class as written in [src/unnamed/part_000]
      (collision with equipment and with other engineers, arrival
      callbacks, sidestepping around obstacles, arrival threshold 0.5).
    - [MainJs] embeds the class as written in [src/main.js] (collision with
      equipment only, no arrival callback, no sidestepping, arrival
      threshold 0.2).

    JavaScript numbers are idealised as real numbers: [Math.sqrt],
    [Math.sin], [Math.cos] are the real functions and comparisons are exact.
    NaN and infinities are outside the embedding.  Rounding is embedded
    where a property depends on it: the deflection of [moveTo] is also given
    with every operation rounded to a double ([deflectRounded], over the
    reals with a rounding function) and as the doubles themselves
    ([Binary64.deflect]).  The DOM (speech bubbles, labels), the renderer
    and the timers of [setTimeout] are outside the embedding too; [work] and
    [speak] are embedded as the synchronous part of their body. *)

From Stdlib Require Import PrimFloat.
From Stdlib Require FloatOps SpecFloat.
From Stdlib Require Import Reals Lra Lia String.
From stdpp Require Import base strings gmap list.

Local Open Scope R_scope.

(** ** JavaScript numbers and [Math] *)

#[global] Instance Rlt_decision (a b : R) : Decision (a < b) := Rlt_dec a b.
#[global] Instance Rgt_decision (a b : R) : Decision (a > b) := Rgt_dec a b.
#[global] Instance R_eq_decision : EqDecision R := Req_dec_T.

(** [n || d] on a possibly undefined number: [undefined] and [0] are falsy. *)
Definition number_or (n : option R) (d : R) : R :=
  match n with
  | None => d
  | Some r => if decide (r = 0) then d else r
  end.

Definition Math_min (a b : R) : R := Rmin a b.

(** [!v] on a possibly null object reference. *)
Definition isNull {A : Type} (v : option A) : bool :=
  match v with
  | None => true
  | Some _ => false
  end.

(** [Math.atan2(y, x)] on reals (no signed zero). *)
Definition Math_atan2 (y x : R) : R :=
  if decide (x > 0) then atan (y / x)
  else if decide (x < 0) then
         if decide (y < 0) then atan (y / x) - PI else atan (y / x) + PI
  else if decide (y > 0) then PI / 2
  else if decide (y < 0) then - (PI / 2)
  else 0.

(** ** The fragment of three.js the class uses *)

Record Vector3 := mkVector3 { vx : R; vy : R; vz : R }.

Definition subVectors (a b : Vector3) : Vector3 :=
  mkVector3 (vx a - vx b) (vy a - vy b) (vz a - vz b).

Definition setY (v : Vector3) (y : R) : Vector3 := mkVector3 (vx v) y (vz v).

Definition Vector3_length (v : Vector3) : R :=
  sqrt (vx v * vx v + vy v * vy v + vz v * vz v).

Definition multiplyScalar (v : Vector3) (s : R) : Vector3 :=
  mkVector3 (vx v * s) (vy v * s) (vz v * s).

(** [normalize()] is [divideScalar(length() || 1)], and [divideScalar(s)] is
    [multiplyScalar(1 / s)]. *)
Definition normalize (v : Vector3) : Vector3 :=
  multiplyScalar v (1 / number_or (Some (Vector3_length v)) 1).

Definition addScaledVector (p v : Vector3) (s : R) : Vector3 :=
  mkVector3 (vx p + vx v * s) (vy p + vy v * s) (vz p + vz v * s).

(** [new THREE.Vector2(a, b).length()] *)
Definition Vector2_length (a b : R) : R := sqrt (a * a + b * b).

(** The planar distance of the collision tests:
    [new THREE.Vector2(p.x - q.x, p.z - q.z).length()]. *)
Definition planarDistance (p q : Vector3) : R :=
  Vector2_length (vx p - vx q) (vz p - vz q).

(** ** Double precision

    The scripts compute in IEEE-754 doubles (binary64, rounding to nearest).
    [fl] maps the exact result of an operation to the double the operation
    returns.  Below the overflow threshold its error is at most the fraction
    [2^-53] of the exact result, plus [2^-1075] where the result is
    subnormal. *)
Definition roundsToNearest (fl : R -> R) : Prop :=
  forall x, Rabs x <= 2 ^ 1023 -> Rabs (fl x - x) <= Rabs x / 2 ^ 53 + / 2 ^ 1075.

(** The alternative target of a blocked [moveTo] ([part_000] 310-316,
    [main.js] 277-283) as the doubles compute it:
    [new THREE.Vector3(targetPos.x + Math.cos(angle) * offset, 0,
                       targetPos.z + Math.sin(angle) * offset)].
    [cosAngle] and [sinAngle] are the doubles [Math.cos(angle)] and
    [Math.sin(angle)] return; each product and each sum is rounded. *)
Definition deflectRounded (fl : R -> R) (cosAngle sinAngle : R) (targetPos : Vector3)
    : Vector3 :=
  let offset := 3 in
  mkVector3 (fl (vx targetPos + fl (cosAngle * offset))) 0
            (fl (vz targetPos + fl (sinAngle * offset))).

(** The same lines on the doubles themselves. *)
Module Binary64.

Record Vector3 := mkVector3 { vx : float; vy : float; vz : float }.

Definition deflect (cosAngle sinAngle : float) (targetPos : Vector3) : Vector3 :=
  let offset := 3%float in
  mkVector3 (PrimFloat.add (vx targetPos) (PrimFloat.mul cosAngle offset))
            0%float
            (PrimFloat.add (vz targetPos) (PrimFloat.mul sinAngle offset)).

(** [new THREE.Vector2(p.x - q.x, p.z - q.z).length()] on doubles. *)
Definition planarDistance (p q : Vector3) : float :=
  let x := PrimFloat.sub (vx p) (vx q) in
  let y := PrimFloat.sub (vz p) (vz q) in
  PrimFloat.sqrt (PrimFloat.add (PrimFloat.mul x x) (PrimFloat.mul y y)).

(** The real number a finite double stands for: mantissa times a power of
    two. *)
Definition toR (f : float) : R :=
  match FloatOps.Prim2SF f with
  | SpecFloat.S754_finite s m e => IZR (if s then Z.neg m else Z.pos m) * powerRZ 2 e
  | _ => 0
  end.

End Binary64.

(** An animation action of the mixer: whether it is scheduled, its time
    scale and its weight. *)
Record AnimationAction := mkAction {
  act_running : bool;
  act_timeScale : R;
  act_weight : R
}.

(** [mixer.clipAction(clip)] *)
Definition clipAction : AnimationAction := mkAction false 1 1.

Definition action_stop (a : AnimationAction) : AnimationAction :=
  mkAction false (act_timeScale a) (act_weight a).
Definition action_reset (a : AnimationAction) : AnimationAction := a.
Definition action_setEffectiveTimeScale (s : R) (a : AnimationAction) : AnimationAction :=
  mkAction (act_running a) s (act_weight a).
Definition action_setEffectiveWeight (w : R) (a : AnimationAction) : AnimationAction :=
  mkAction (act_running a) (act_timeScale a) w.
Definition action_play (a : AnimationAction) : AnimationAction :=
  mkAction true (act_timeScale a) (act_weight a).

(** The animation mixer, reduced to its clock [mixer.time]. *)
Record AnimationMixer := mkMixer { mixer_time : R }.

Definition mixer_update (deltaTime : R) (m : AnimationMixer) : AnimationMixer :=
  mkMixer (mixer_time m + deltaTime).

(** The loaded FBX model of an engineer: [model.position], [model.rotation.y]. *)
Record Model := mkModel { model_position : Vector3; model_rotation_y : R }.

Definition model_setPosition (p : Vector3) (m : Model) : Model :=
  mkModel p (model_rotation_y m).
Definition model_setRotationY (r : R) (m : Model) : Model :=
  mkModel (model_position m) r.

(** An entry of [collisionObjects]: the world position of the object and
    [userData.radius]. *)
Record Obstacle := mkObstacle {
  obj_id : string;
  obj_worldPosition : Vector3;
  obj_radius : option R
}.

(** ** The [Engineer] object

    One record serves both scripts; [onArrivalCallback] is the field that
    only [part_000] has, and no function of [MainJs] reads or writes it. *)

Record Engineer {Callback : Type} := mkEngineer {
  name : string;
  position : Vector3;
  role : string;
  model : option Model;
  mixer : option AnimationMixer;
  animations : gmap string AnimationAction;
  currentAnimation : option string;
  currentState : string;
  targetPosition : option Vector3;
  speed : R;
  dialogue : option string;
  isSpeaking : bool;
  isWorking : bool;
  animationsLoaded : nat;
  totalAnimations : nat;
  onArrivalCallback : option Callback
}.
Arguments Engineer : clear implicits.
Arguments mkEngineer {Callback}.

Section EngineerCommon.
Context {Callback : Type}.
#[local] Abbreviation Engineer := (Engineer Callback).

(** [constructor(name, position, role)] *)
Definition Engineer_new (n : string) (p : Vector3) (r : string) : Engineer :=
  mkEngineer n p r None None ∅ None "idle" None 0.05 None false false 0%nat 4%nat None.

Definition set_model (m : option Model) (e : Engineer) : Engineer :=
  mkEngineer (name e) (position e) (role e) m (mixer e) (animations e)
    (currentAnimation e) (currentState e) (targetPosition e) (speed e) (dialogue e)
    (isSpeaking e) (isWorking e) (animationsLoaded e) (totalAnimations e)
    (onArrivalCallback e).

Definition set_mixer (m : option AnimationMixer) (e : Engineer) : Engineer :=
  mkEngineer (name e) (position e) (role e) (model e) m (animations e)
    (currentAnimation e) (currentState e) (targetPosition e) (speed e) (dialogue e)
    (isSpeaking e) (isWorking e) (animationsLoaded e) (totalAnimations e)
    (onArrivalCallback e).

Definition set_animation (a : gmap string AnimationAction) (anim : option string)
    (st : string) (e : Engineer) : Engineer :=
  mkEngineer (name e) (position e) (role e) (model e) (mixer e) a
    anim st (targetPosition e) (speed e) (dialogue e)
    (isSpeaking e) (isWorking e) (animationsLoaded e) (totalAnimations e)
    (onArrivalCallback e).

Definition set_animationsLoaded (n : nat) (e : Engineer) : Engineer :=
  mkEngineer (name e) (position e) (role e) (model e) (mixer e) (animations e)
    (currentAnimation e) (currentState e) (targetPosition e) (speed e) (dialogue e)
    (isSpeaking e) (isWorking e) n (totalAnimations e)
    (onArrivalCallback e).

Definition set_targetPosition (t : option Vector3) (e : Engineer) : Engineer :=
  mkEngineer (name e) (position e) (role e) (model e) (mixer e) (animations e)
    (currentAnimation e) (currentState e) t (speed e) (dialogue e)
    (isSpeaking e) (isWorking e) (animationsLoaded e) (totalAnimations e)
    (onArrivalCallback e).

Definition set_speaking (d : option string) (b : bool) (e : Engineer) : Engineer :=
  mkEngineer (name e) (position e) (role e) (model e) (mixer e) (animations e)
    (currentAnimation e) (currentState e) (targetPosition e) (speed e) d
    b (isWorking e) (animationsLoaded e) (totalAnimations e)
    (onArrivalCallback e).

Definition set_isWorking (b : bool) (e : Engineer) : Engineer :=
  mkEngineer (name e) (position e) (role e) (model e) (mixer e) (animations e)
    (currentAnimation e) (currentState e) (targetPosition e) (speed e) (dialogue e)
    (isSpeaking e) b (animationsLoaded e) (totalAnimations e)
    (onArrivalCallback e).

Definition set_onArrivalCallback (c : option Callback) (e : Engineer) : Engineer :=
  mkEngineer (name e) (position e) (role e) (model e) (mixer e) (animations e)
    (currentAnimation e) (currentState e) (targetPosition e) (speed e) (dialogue e)
    (isSpeaking e) (isWorking e) (animationsLoaded e) (totalAnimations e) c.

(** The head of [update] in both scripts:
    [if (this.mixer) this.mixer.update(deltaTime)]. *)
Definition updateMixer (deltaTime : R) (e : Engineer) : Engineer :=
  set_mixer (mixer_update deltaTime <$> mixer e) e.

(** [stateAnimationMap] of [setState] *)
Definition stateAnimationMap : gmap string string :=
  {[ "idle" := "standing"; "walking" := "walking";
     "talking" := "talking"; "working" := "working" ]}.

(** [setState(newState)]: the same text in both scripts
    ([part_000] 239-266, [main.js] 222-249). *)
Definition setState (newState : string) (e : Engineer) : Engineer :=
  if decide (currentState e = newState) then e
  else
    match stateAnimationMap !! newState with
    | None => e
    | Some animName =>
      match animations e !! animName with
      | None => e
      | Some _ =>
        let stopped := action_stop <$> animations e in
        let started :=
          alter (fun newAction =>
                   action_play
                     (action_setEffectiveWeight 1
                        (action_setEffectiveTimeScale 1 (action_reset newAction))))
                animName stopped in
        set_animation started (Some animName) newState e
      end
    end.

(** [speak(text, duration)], the synchronous part; the timer runs
    [speak_timeout] later, between two frames. *)
Definition speak (text : string) (e : Engineer) : Engineer :=
  set_speaking (Some text) true e.
Definition speak_timeout (e : Engineer) : Engineer := set_speaking None false e.

(** [work(duration)], the synchronous part, and its timer. *)
Definition work (e : Engineer) : Engineer := set_isWorking true e.
Definition work_timeout (e : Engineer) : Engineer := set_isWorking false e.

(** [loadAnimation(file, name)], the loader's completion handler;
    [hasClip] is [fbx.animations.length > 0]. *)
Definition loadAnimation_loaded (hasClip : bool) (animName : string) (e : Engineer) : Engineer :=
  if hasClip then
    let e1 := set_animation (<[animName := clipAction]> (animations e))
                            (currentAnimation e) (currentState e) e in
    let e2 := set_animationsLoaded (S (animationsLoaded e1)) e1 in
    if decide (animationsLoaded e2 = totalAnimations e2) then setState "idle" e2 else e2
  else e.

(** The collision test against the equipment, the first loop of
    [checkCollision] in both scripts. *)
Definition engineerRadius : R := 0.5.

(** [obj.userData.radius || 1] *)
Definition collisionRadius (obj : Obstacle) : R := number_or (obj_radius obj) 1.

Definition minDistance (obj : Obstacle) : R := engineerRadius + collisionRadius obj.

Fixpoint collidesWithEquipment (objs : list Obstacle) (newPosition : Vector3) : bool :=
  match objs with
  | [] => false
  | obj :: rest =>
    if decide (planarDistance newPosition (obj_worldPosition obj) < minDistance obj)
    then true
    else collidesWithEquipment rest newPosition
  end.

End EngineerCommon.

(** ** [src/unnamed/part_000] *)

Module Part000.
Section Class.
Context {Callback : Type}.
#[local] Abbreviation Engineer := (Engineer Callback).

(** The effect of running an arrival callback [this.onArrivalCallback()] on
    the engineer it closes over. *)
Variable invoke : Callback -> Engineer -> Engineer.

(** The second loop of [checkCollision]: [engineers] is the global array,
    [this] the index of the receiver in it ([otherEngineer === this]), and
    [j] the index of the head of [others]. *)
Fixpoint collidesWithEngineers (this j : nat) (others : list Engineer)
    (newPosition : Vector3) : bool :=
  match others with
  | [] => false
  | otherEngineer :: rest =>
    if decide (j = this) then collidesWithEngineers this (S j) rest newPosition
    else
      match model otherEngineer with
      | None => collidesWithEngineers this (S j) rest newPosition
      | Some m =>
        if decide (planarDistance newPosition (model_position m) < engineerRadius * 2)
        then true
        else collidesWithEngineers this (S j) rest newPosition
      end
  end.

(** [checkCollision(newPosition)] *)
Definition checkCollision (collisionObjects : list Obstacle) (engineers : list Engineer)
    (this : nat) (newPosition : Vector3) : bool :=
  if collidesWithEquipment collisionObjects newPosition then true
  else if collidesWithEngineers this 0 engineers newPosition then true
  else false.

(** The alternative target of a blocked [moveTo], in exact arithmetic;
    [random] is the value returned by [Math.random()].  [deflectRounded]
    is the same point with the rounding of the doubles. *)
Definition deflect (random : R) (targetPos : Vector3) : Vector3 :=
  let angle := random * PI * 2 in
  let offset := 3 in
  mkVector3 (vx targetPos + cos angle * offset) 0 (vz targetPos + sin angle * offset).

(** [moveTo(targetPos, onArrival = null)] *)
Definition moveTo (collisionObjects : list Obstacle) (engineers : list Engineer)
    (this : nat) (random : R) (targetPos : Vector3) (onArrival : option Callback)
    (e : Engineer) : Engineer :=
  let targetPos' :=
    if checkCollision collisionObjects engineers this targetPos
    then deflect random targetPos
    else targetPos in
  set_onArrivalCallback onArrival
    (set_targetPosition (Some (setY targetPos' 0)) e).

(** [moveTo] with the deflection as the doubles compute it. *)
Definition moveToRounded (fl : R -> R) (cosAngle sinAngle : R)
    (collisionObjects : list Obstacle) (engineers : list Engineer)
    (this : nat) (targetPos : Vector3) (onArrival : option Callback)
    (e : Engineer) : Engineer :=
  let targetPos' :=
    if checkCollision collisionObjects engineers this targetPos
    then deflectRounded fl cosAngle sinAngle targetPos
    else targetPos in
  set_onArrivalCallback onArrival
    (set_targetPosition (Some (setY targetPos' 0)) e).

(** Lines 344-368 of [update]: the position the engineer takes in a walking
    frame, from the current position, the normalized [direction] and
    [moveDistance]. *)
Definition directCandidate (pos direction : Vector3) (moveDistance : R) : Vector3 :=
  setY (addScaledVector pos direction moveDistance) 0.
Definition perpendicular1 (direction : Vector3) : Vector3 :=
  mkVector3 (- vz direction) 0 (vx direction).
Definition perpendicular2 (direction : Vector3) : Vector3 :=
  mkVector3 (vz direction) 0 (- vx direction).

Definition stepPosition (collisionObjects : list Obstacle) (engineers : list Engineer)
    (this : nat) (pos direction : Vector3) (moveDistance : R) : Vector3 :=
  let newPosition := directCandidate pos direction moveDistance in
  if negb (checkCollision collisionObjects engineers this newPosition) then newPosition
  else
    let alt1 := addScaledVector pos (perpendicular1 direction) moveDistance in
    let alt2 := addScaledVector pos (perpendicular2 direction) moveDistance in
    if negb (checkCollision collisionObjects engineers this alt1) then alt1
    else if negb (checkCollision collisionObjects engineers this alt2) then alt2
    else pos.

(** Lines 370-375 of [update]: the smoothed turn towards [direction]. *)
Definition turnTowards (direction : Vector3) (currentAngle : R) : R :=
  let targetAngle := Math_atan2 (vx direction) (vz direction) in
  let angleDiff := targetAngle - currentAngle in
  let shortestAngle := Math_atan2 (sin angleDiff) (cos angleDiff) in
  currentAngle + shortestAngle * 0.1.

(** [this.targetPosition - this.model.position] with [y] zeroed. *)
Definition directionTo (target pos : Vector3) : Vector3 :=
  setY (subVectors target pos) 0.

Definition arrivalThreshold : R := 0.5.

(** The guard of the walking branch: a target, a loaded model, no work in
    progress and a target farther than the threshold. *)
Definition movesTowards (e : Engineer) (target : Vector3) (m : Model) : Prop :=
  targetPosition e = Some target /\ model e = Some m /\ isWorking e = false /\
  Vector3_length (directionTo target (model_position m)) > arrivalThreshold.

(** The guard of the arrival branch. *)
Definition arrivesAt (e : Engineer) (target : Vector3) (m : Model) : Prop :=
  targetPosition e = Some target /\ model e = Some m /\ isWorking e = false /\
  Vector3_length (directionTo target (model_position m)) <= arrivalThreshold.

(** Lines 330-390 of [update]: movement, and arrival.  The second component
    lists the callbacks invoked, in order. *)
Definition updateMovement (collisionObjects : list Obstacle) (engineers : list Engineer)
    (this : nat) (e : Engineer) : Engineer * list Callback :=
  match targetPosition e, model e with
  | Some target, Some m =>
    if isWorking e then (e, [])
    else
      let direction := directionTo target (model_position m) in
      let distance := Vector3_length direction in
      if decide (distance > arrivalThreshold) then
        let e1 := if decide (currentState e = "walking") then e else setState "walking" e in
        let direction := normalize direction in
        let moveDistance := Math_min (speed e1) distance in
        let pos := stepPosition collisionObjects engineers this
                     (model_position m) direction moveDistance in
        let rot := turnTowards direction (model_rotation_y m) in
        (set_model (Some (model_setRotationY rot (model_setPosition pos m))) e1, [])
      else
        let e1 := set_targetPosition None e in
        let '(e2, called) :=
          match onArrivalCallback e1 with
          | Some cb => (set_onArrivalCallback None (invoke cb e1), [cb])
          | None => (e1, [])
          end in
        let e3 := if negb (isSpeaking e2) && negb (isWorking e2)
                  then setState "idle" e2 else e2 in
        (e3, called)
  | _, _ => (e, [])
  end.

(** Lines 392-406 of [update]: the state management. *)
Definition updateState (e : Engineer) : Engineer :=
  if isWorking e then
    if decide (currentState e = "working") then e else setState "working" e
  else if isSpeaking e && isNull (targetPosition e) then
    if decide (currentState e = "talking") then e else setState "talking" e
  else if isNull (targetPosition e) && negb (isWorking e) && negb (isSpeaking e) then
    if decide (currentState e = "idle") then e else setState "idle" e
  else e.

(** [update(deltaTime)] *)
Definition update (collisionObjects : list Obstacle) (engineers : list Engineer)
    (this : nat) (deltaTime : R) (e : Engineer) : Engineer * list Callback :=
  let e0 := updateMixer deltaTime e in
  let '(e1, called) := updateMovement collisionObjects engineers this e0 in
  (updateState e1, called).

(** [loadModel()], the completion handler of the base model. *)
Definition loadModel_loaded (hasClip : bool) (e : Engineer) : Engineer :=
  let e1 := set_mixer (Some (mkMixer 0))
              (set_model (Some (mkModel (position e) 0)) e) in
  if hasClip then
    let action := action_play clipAction in
    set_animationsLoaded (S (animationsLoaded e1))
      (set_animation (<["standing" := action]> (animations e1)) (Some "standing") "idle" e1)
  else e1.

(** The scene: [collisionObjects] and [engineers]. *)
Record Scene := mkScene {
  collisionObjects : list Obstacle;
  engineers : list Engineer
}.

(** [engineers.forEach(engineer => engineer.update(deltaTime))] of
    [animate]: the engineers are updated in order, each one seeing the
    positions the earlier ones have just taken. *)
Definition updateAt (deltaTime : R) (acc : Scene * list Callback) (i : nat)
    : Scene * list Callback :=
  match engineers (fst acc) !! i with
  | None => acc
  | Some e =>
    let '(e', called) := update (collisionObjects (fst acc)) (engineers (fst acc)) i deltaTime e in
    (mkScene (collisionObjects (fst acc)) (<[i := e']> (engineers (fst acc))),
     snd acc ++ called)
  end.

Definition animate (deltaTime : R) (sc : Scene) : Scene * list Callback :=
  foldl (updateAt deltaTime) (sc, []) (seq 0 (length (engineers sc))).

End Class.
End Part000.

(** ** [src/main.js] *)

Module MainJs.
Section Class.
Context {Callback : Type}.
#[local] Abbreviation Engineer := (Engineer Callback).

(** [checkCollision(newPosition)]: the equipment only. *)
Definition checkCollision (collisionObjects : list Obstacle) (newPosition : Vector3) : bool :=
  if collidesWithEquipment collisionObjects newPosition then true else false.

(** The alternative target of a blocked [moveTo], in exact arithmetic;
    [random] is the value returned by [Math.random()].  [deflectRounded]
    is the same point with the rounding of the doubles. *)
Definition deflect (random : R) (targetPos : Vector3) : Vector3 :=
  let angle := random * PI * 2 in
  let offset := 3 in
  mkVector3 (vx targetPos + cos angle * offset) 0 (vz targetPos + sin angle * offset).

(** [moveTo(targetPos)] *)
Definition moveTo (collisionObjects : list Obstacle) (random : R) (targetPos : Vector3)
    (e : Engineer) : Engineer :=
  let targetPos' :=
    if checkCollision collisionObjects targetPos
    then deflect random targetPos
    else targetPos in
  set_targetPosition (Some (setY targetPos' 0)) e.

(** [moveTo] with the deflection as the doubles compute it. *)
Definition moveToRounded (fl : R -> R) (cosAngle sinAngle : R)
    (collisionObjects : list Obstacle) (targetPos : Vector3)
    (e : Engineer) : Engineer :=
  let targetPos' :=
    if checkCollision collisionObjects targetPos
    then deflectRounded fl cosAngle sinAngle targetPos
    else targetPos in
  set_targetPosition (Some (setY targetPos' 0)) e.

Definition directCandidate (pos direction : Vector3) (moveDistance : R) : Vector3 :=
  setY (addScaledVector pos direction moveDistance) 0.

(** Lines 318-327 of [update]: the direct step, taken when it is free. *)
Definition stepPosition (collisionObjects : list Obstacle)
    (pos direction : Vector3) (moveDistance : R) : Vector3 :=
  let newPosition := directCandidate pos direction moveDistance in
  if negb (checkCollision collisionObjects newPosition) then newPosition else pos.

Definition turnTowards (direction : Vector3) (currentAngle : R) : R :=
  let targetAngle := Math_atan2 (vx direction) (vz direction) in
  let angleDiff := targetAngle - currentAngle in
  let shortestAngle := Math_atan2 (sin angleDiff) (cos angleDiff) in
  currentAngle + shortestAngle * 0.1.

Definition directionTo (target pos : Vector3) : Vector3 :=
  setY (subVectors target pos) 0.

Definition arrivalThreshold : R := 0.2.

(** The guard of the walking branch: the state machine reaches the
    movement branch only when the engineer neither speaks nor works. *)
Definition movesTowards (e : Engineer) (target : Vector3) (m : Model) : Prop :=
  isSpeaking e = false /\ isWorking e = false /\
  targetPosition e = Some target /\ model e = Some m /\
  Vector3_length (directionTo target (model_position m)) > arrivalThreshold.

(** The guard of the arrival branch. *)
Definition arrivesAt (e : Engineer) (target : Vector3) (m : Model) : Prop :=
  isSpeaking e = false /\ isWorking e = false /\
  targetPosition e = Some target /\ model e = Some m /\
  Vector3_length (directionTo target (model_position m)) <= arrivalThreshold.

(** Lines 304-341 of [update]: the movement branch of the state machine. *)
Definition updateMovement (collisionObjects : list Obstacle)
    (target : Vector3) (m : Model) (e : Engineer) : Engineer :=
  let direction := directionTo target (model_position m) in
  let distance := Vector3_length direction in
  if decide (distance > arrivalThreshold) then
    let e1 := if decide (currentState e = "walking") then e else setState "walking" e in
    let direction := normalize direction in
    let moveDistance := Math_min (speed e1) distance in
    let pos := stepPosition collisionObjects (model_position m) direction moveDistance in
    let rot := turnTowards direction (model_rotation_y m) in
    set_model (Some (model_setRotationY rot (model_setPosition pos m))) e1
  else
    let e1 := set_targetPosition None e in
    if negb (isSpeaking e1) && negb (isWorking e1) then setState "idle" e1 else e1.

(** Lines 295-347 of [update]: the state machine. *)
Definition stateMachine (collisionObjects : list Obstacle) (e0 : Engineer) : Engineer :=
  if isSpeaking e0 then
    if decide (currentState e0 = "talking") then e0 else setState "talking" e0
  else if isWorking e0 then
    if decide (currentState e0 = "working") then e0 else setState "working" e0
  else
    match targetPosition e0, model e0 with
    | Some target, Some m => updateMovement collisionObjects target m e0
    | _, _ =>
      if negb (bool_decide (currentState e0 = "idle"))
         && negb (isSpeaking e0) && negb (isWorking e0)
      then setState "idle" e0 else e0
    end.

(** [update(deltaTime)] *)
Definition update (collisionObjects : list Obstacle) (deltaTime : R) (e : Engineer)
    : Engineer :=
  stateMachine collisionObjects (updateMixer deltaTime e).

(** [loadModel()], the completion handler of the base model. *)
Definition loadModel_loaded (hasClip : bool) (e : Engineer) : Engineer :=
  let e1 := set_mixer (Some (mkMixer 0))
              (set_model (Some (mkModel (position e) 0)) e) in
  if hasClip then
    set_animationsLoaded (S (animationsLoaded e1))
      (set_animation (<["standing" := clipAction]> (animations e1))
                     (currentAnimation e1) (currentState e1) e1)
  else e1.

End Class.
End MainJs.

(** ** The words of the specification *)

(** Some obstacle is closer to [p] than its minimum separation. *)
Definition nearObstacle (objs : list Obstacle) (p : Vector3) : Prop :=
  exists obj, obj ∈ objs /\
    planarDistance p (obj_worldPosition obj) < engineerRadius + collisionRadius obj.

(** Some other actor stands closer to [p] than twice the actor radius; the
    current position of an actor is [model.position]. *)
Definition nearOtherActor {Callback : Type} (engineers : list (Engineer Callback))
    (this : nat) (p : Vector3) : Prop :=
  exists (j : nat) other m,
    engineers !! j = Some other /\ j <> this /\ model other = Some m /\
    planarDistance p (model_position m) < 2 * engineerRadius.

Definition vadd (p d : Vector3) : Vector3 :=
  mkVector3 (vx p + vx d) (vy p + vy d) (vz p + vz d).

(** The rotation by [theta] in the XZ-plane. *)
Definition rotateXZ (theta : R) (d : Vector3) : Vector3 :=
  mkVector3 (vx d * cos theta - vz d * sin theta) (vy d)
            (vx d * sin theta + vz d * cos theta).

(** [stepAround(currentPos, desiredDelta)] of the specification: the direct
    candidate, then the two perpendicular ones, then the current position. *)
Definition stepAround (isBlocked : Vector3 -> bool) (currentPos desiredDelta : Vector3)
    : Vector3 :=
  if negb (isBlocked (vadd currentPos desiredDelta)) then vadd currentPos desiredDelta
  else if negb (isBlocked (vadd currentPos (rotateXZ (PI / 2) desiredDelta)))
  then vadd currentPos (rotateXZ (PI / 2) desiredDelta)
  else if negb (isBlocked (vadd currentPos (rotateXZ (- (PI / 2)) desiredDelta)))
  then vadd currentPos (rotateXZ (- (PI / 2)) desiredDelta)
  else currentPos.

(** Two positions over the same point of the ground plane. *)
Definition sameGround (p q : Vector3) : Prop := vx p = vx q /\ vz p = vz q.

(** The clip [setState] needs for a state, when it is loaded. *)
Definition clipOf {Callback : Type} (e : Engineer Callback) (newState : string)
    : option AnimationAction :=
  match stateAnimationMap !! newState with
  | Some animName => animations e !! animName
  | None => None
  end.


(** A frame of one engineer: the scene it sees and the elapsed time. *)
Record Frame {Callback : Type} := mkFrame {
  frame_objects : list Obstacle;
  frame_engineers : list (Engineer Callback);
  frame_this : nat;
  frame_deltaTime : R
}.
Arguments Frame : clear implicits.
Arguments mkFrame {Callback}.

(** Successive calls of [update] on one engineer, with the callbacks invoked
    along the way. *)
Fixpoint simulate {Callback : Type}
    (invoke : Callback -> Engineer Callback -> Engineer Callback)
    (frames : list (Frame Callback)) (e : Engineer Callback)
    : Engineer Callback * list Callback :=
  match frames with
  | [] => (e, [])
  | f :: rest =>
    let '(e1, called1) :=
      Part000.update invoke (frame_objects f) (frame_engineers f) (frame_this f)
        (frame_deltaTime f) e in
    let '(e2, called2) := simulate invoke rest e1 in
    (e2, called1 ++ called2)
  end.

(** ** The scene of the scripts *)

(** The pump of [createHVACEquipment]. *)
Definition pump : Obstacle := mkObstacle "pump1" (mkVector3 (-5) 0.75 5) (Some 1.5).

(** The arrival callback [handleAIResponse] passes to [moveTo]
    ([part_000] 668-681), in its synchronous part:
    [engineer.work(8000); engineer.speak(...)]. *)
Inductive FixArrival := fixArrival (equipmentName : string).

Definition runFixArrival (cb : FixArrival) (e : Engineer FixArrival) : Engineer FixArrival :=
  match cb with
  | fixArrival equipmentName =>
    speak ("Working on the " +:+ equipmentName +:+ " now...") (work e)
  end.

(** An engineer of [part_000] standing at [p] with its model and its four
    clips loaded. *)
Definition loadedAt (n : string) (p : Vector3) : Engineer FixArrival :=
  loadAnimation_loaded true "working"
    (loadAnimation_loaded true "talking"
       (loadAnimation_loaded true "walking"
          (Part000.loadModel_loaded true (Engineer_new n p "Engineer")))).

(** The same engineer while [Working.fbx] is still loading. *)
Definition loadingAt (n : string) (p : Vector3) : Engineer FixArrival :=
  loadAnimation_loaded true "talking"
    (loadAnimation_loaded true "walking"
       (Part000.loadModel_loaded true (Engineer_new n p "Engineer"))).

(** An engineer of [main.js] with its model and its four clips loaded. *)
Definition mainjsLoadedAt (n : string) (p : Vector3) : Engineer FixArrival :=
  loadAnimation_loaded true "working"
    (loadAnimation_loaded true "talking"
       (loadAnimation_loaded true "walking"
          (MainJs.loadModel_loaded true (Engineer_new n p "Engineer")))).

Definition origin : Vector3 := mkVector3 0 0 0.

(** The blocking condition of the specification, as a property of a
    collision test [check]. *)
Definition blockedIff {Callback : Type}
    (check : list Obstacle -> list (Engineer Callback) -> nat -> Vector3 -> bool) : Prop :=
  forall objs engineers this p,
    check objs engineers this p = true <->
    nearObstacle objs p \/ nearOtherActor engineers this p.

(** The engineers the scripts create. *)
Definition mike : Engineer FixArrival := loadedAt "Mike" (mkVector3 (-3) 0 0).
Definition sarah : Engineer FixArrival := loadedAt "Sarah" (mkVector3 3 0 0).
Definition mainjsMike : Engineer FixArrival := mainjsLoadedAt "Mike" (mkVector3 (-3) 0 0).
Definition mainjsSarah : Engineer FixArrival := mainjsLoadedAt "Sarah" (mkVector3 3 0 0).


(** Mike standing left of the pump, where [handleAIResponse] sends the
    engineer who fixes it, now sent to [target]. *)
Definition mikeAtPump (target : Vector3) : Engineer FixArrival :=
  set_targetPosition (Some target) (loadedAt "Mike" (mkVector3 (-7) 0 5)).

Definition mainjsMikeAtPump (target : Vector3) : Engineer FixArrival :=
  set_targetPosition (Some target) (mainjsLoadedAt "Mike" (mkVector3 (-7) 0 5)).

Definition mainjsMikeToOrigin : Engineer FixArrival :=
  set_targetPosition (Some origin) mainjsMike.

(** Mike arriving left of the pump with the arrival callback of the fix
    request pending. *)
Definition mikeArriving : Engineer FixArrival :=
  set_onArrivalCallback (Some (fixArrival "pump"))
    (set_targetPosition (Some (mkVector3 (-7) 0 5))
       (loadedAt "Mike" (mkVector3 (-7.25) 0 5))).

(** An engineer of [main.js] at 0.3 of its target. *)
Definition mainjsMikeNear : Engineer FixArrival :=
  set_targetPosition (Some (mkVector3 (-7) 0 5))
    (mainjsLoadedAt "Mike" (mkVector3 (-7.3) 0 5)).

(** Mike asked to work while [Working.fbx] is still loading. *)
Definition mikeWorkingEarly : Engineer FixArrival := work (loadingAt "Mike" origin).

(** An engineer of [main.js] who speaks while working. *)
Definition mainjsMikeBusy : Engineer FixArrival :=
  speak "Running diagnostics..." (work mainjsMike).

(** ** Properties of a whole scene *)

(** A callback that leaves the pose of the engineer alone. *)
Definition posePreserving {Callback : Type}
    (invoke : Callback -> Engineer Callback -> Engineer Callback) : Prop :=
  forall cb e, model (invoke cb e) = model e.

(** Any two engineers with a loaded model stand at least two engineer radii
    apart. *)
Definition apart {Callback : Type} (engineers : list (Engineer Callback)) : Prop :=
  forall (i j : nat) ei ej mi mj,
    i <> j -> engineers !! i = Some ei -> engineers !! j = Some ej ->
    model ei = Some mi -> model ej = Some mj ->
    engineerRadius * 2 <= planarDistance (model_position mi) (model_position mj).

(** Every engineer with a loaded model keeps the minimum distance from
    every obstacle. *)
Definition clearOfEquipment {Callback : Type} (objs : list Obstacle)
    (engineers : list (Engineer Callback)) : Prop :=
  forall (i : nat) e m obj,
    engineers !! i = Some e -> model e = Some m -> obj ∈ objs ->
    minDistance obj <= planarDistance (model_position m) (obj_worldPosition obj).




(** Mike at his spawn point, sent one unit to the right. *)
Definition mikeOneStep : Engineer FixArrival :=
  set_targetPosition (Some (mkVector3 (-2) 0 0)) mike.

(** Mike answering the chat while he is sent one unit to the right. *)
Definition mikeSpeakingOneStep : Engineer FixArrival :=
  speak "On my way to inspect the equipment now." mikeOneStep.

(** The loader completions of [loadAnimation] for the files of [names], in
    the order in which they complete. *)
Definition loadAnimations {Callback : Type} (names : list string)
    (e : Engineer Callback) : Engineer Callback :=
  foldl (fun acc animName => loadAnimation_loaded true animName acc) e names.

(** The four states of [stateAnimationMap]. *)
Definition states : list string := ["idle"; "walking"; "talking"; "working"].

(** ** The life of an engineer of [part_000]

    The states an engineer can be in: it is constructed; [loadModel] completes
    once; [loadAnimation], which is called from that completion, completes
    for the three clip files; [moveTo], [speak], [work] and their timers act
    on it at any time; the frame loop calls [update] with the arrival
    callback of the fix request. *)
Inductive Reachable : Engineer FixArrival -> Prop :=
| reach_new n p r : Reachable (Engineer_new n p r)
| reach_model hasClip e :
    Reachable e -> model e = None -> Reachable (Part000.loadModel_loaded hasClip e)
| reach_clip hasClip animName e :
    Reachable e -> is_Some (model e) ->
    animName ∈ ["walking"; "talking"; "working"] ->
    Reachable (loadAnimation_loaded hasClip animName e)
| reach_moveTo objs engineers this random targetPos onArrival e :
    Reachable e ->
    Reachable (Part000.moveTo objs engineers this random targetPos onArrival e)
| reach_speak text e : Reachable e -> Reachable (speak text e)
| reach_speak_timeout e : Reachable e -> Reachable (speak_timeout e)
| reach_work e : Reachable e -> Reachable (work e)
| reach_work_timeout e : Reachable e -> Reachable (work_timeout e)
| reach_frame objs engineers this dt e :
    Reachable e -> Reachable (Part000.update runFixArrival objs engineers this dt e).1.

(** The part of the engineer the state of its animations depends on. *)
Record Consistent {Callback : Type} (e : Engineer Callback) : Prop := mkConsistent {
  cons_speed : speed e = 0.05;
  cons_total : totalAnimations e = 4%nat;
  cons_state : currentState e ∈ states;
  cons_target : forall t, targetPosition e = Some t -> vy t = 0;
  cons_ground : forall m, model e = Some m ->
                  vy (model_position m) = 0 \/ vy (model_position m) = vy (position e);
  cons_unloaded : model e = None ->
                  animations e = ∅ /\ currentAnimation e = None /\ currentState e = "idle";
  cons_current : currentState e <> "idle" ->
                 currentAnimation e = stateAnimationMap !! currentState e;
  cons_idle : currentState e = "idle" ->
              currentAnimation e = None \/ currentAnimation e = Some "standing";
  cons_loaded : forall k, currentAnimation e = Some k -> is_Some (animations e !! k);
  cons_running : forall k a, animations e !! k = Some a -> act_running a = true ->
                 currentAnimation e = Some k
}.

(** ** The equipment table of [part_000]

    [equipmentData] (70-75) is an object keyed by equipment id whose entries
    hold telemetry readings, a status string and the flag [hasIssue].  The
    keys are kept in their order of insertion, the order of [Object.keys]
    and [Object.entries].  The telemetry timer (543-556) writes readings
    only and is left out. *)
Record EquipmentData := mkEquipmentData {
  eq_readings : list (string * R);
  eq_status : string;
  eq_hasIssue : bool
}.

Definition EquipmentTable : Type := list (string * EquipmentData).

Definition equipmentData : EquipmentTable :=
  [ ("chiller1", mkEquipmentData [("temp", 7.2); ("pressure", 4.5); ("flow", 120)]
                   "Running" false);
    ("ahu1", mkEquipmentData [("temp", 18.5); ("humidity", 55); ("flow", 8500)]
               "Running" false);
    ("pump1", mkEquipmentData [("flow", 95); ("pressure", 6.2); ("power", 15.5)]
                "Running" false);
    ("coolingTower", mkEquipmentData [("temp", 32.1); ("flow", 150); ("fanSpeed", 85)]
                       "Running" false) ].

Definition Object_keys (d : EquipmentTable) : list string := d.*1.

(** [equipmentData[id]]: [None] is [undefined]. *)
Fixpoint getEquipment (id : string) (d : EquipmentTable) : option EquipmentData :=
  match d with
  | [] => None
  | (k, x) :: d' => if decide (k = id) then Some x else getEquipment id d'
  end.

(** The writes [equipmentData[id].status = ...; equipmentData[id].hasIssue = ...]
    on an existing entry. *)
Fixpoint setEquipment (id : string) (f : EquipmentData -> EquipmentData)
    (d : EquipmentTable) : EquipmentTable :=
  match d with
  | [] => []
  | (k, x) :: d' =>
    if decide (k = id) then (k, f x) :: d' else (k, x) :: setEquipment id f d'
  end.

Definition markFault (x : EquipmentData) : EquipmentData :=
  mkEquipmentData (eq_readings x) "FAULT" true.

Definition markRunning (x : EquipmentData) : EquipmentData :=
  mkEquipmentData (eq_readings x) "Running" false.

(** [window.createIssue(equipmentId)] (559-565), without the chat message. *)
Definition createIssue (equipmentId : string) (d : EquipmentTable) : EquipmentTable :=
  match getEquipment equipmentId d with
  | Some _ => setEquipment equipmentId markFault d
  | None => d
  end.

(** The timer of random issues (568-575).  [index] is
    [Math.floor(Math.random() * equipmentIds.length)] and [random] the second
    draw; [None] is the [TypeError] of reading [hasIssue] of [undefined]. *)
Definition randomIssue (index : nat) (random : R) (d : EquipmentTable)
    : option EquipmentTable :=
  match Object_keys d !! index with
  | None => None
  | Some randomEquipment =>
    match getEquipment randomEquipment d with
    | None => None
    | Some x =>
      Some (if negb (eq_hasIssue x) && bool_decide (random > 0.7)
            then createIssue randomEquipment d
            else d)
    end
  end.

(** The timer a fix request starts on arrival (674-680): eight seconds later
    the equipment is repaired, if it has an issue, and the engineer says so. *)
Definition repairTimer (equipmentId equipmentName : string)
    (d : EquipmentTable) (e : Engineer FixArrival)
    : option (EquipmentTable * Engineer FixArrival) :=
  match getEquipment equipmentId d with
  | None => None
  | Some x =>
    Some (if eq_hasIssue x
          then (setEquipment equipmentId markRunning d,
                speak (equipmentName +:+ " is fixed! Back to normal operation.") e)
          else (d, e))
  end.

(** The ids the status query of [handleAIResponse] reports (710-712). *)
Definition issues (d : EquipmentTable) : list string :=
  (filter (fun p : string * EquipmentData => eq_hasIssue p.2 = true) d).*1.

(** What happens to the table between two frames. *)
Inductive EquipmentEvent :=
| CreateIssue (equipmentId : string)
| RandomIssue (index : nat) (random : R)
| Repair (equipmentId equipmentName : string).

Definition runEvent (ev : EquipmentEvent) (s : EquipmentTable * Engineer FixArrival)
    : option (EquipmentTable * Engineer FixArrival) :=
  match ev with
  | CreateIssue equipmentId => Some (createIssue equipmentId s.1, s.2)
  | RandomIssue index random =>
    match randomIssue index random s.1 with
    | Some d => Some (d, s.2)
    | None => None
    end
  | Repair equipmentId equipmentName => repairTimer equipmentId equipmentName s.1 s.2
  end.

Fixpoint runEvents (events : list EquipmentEvent)
    (s : EquipmentTable * Engineer FixArrival)
    : option (EquipmentTable * Engineer FixArrival) :=
  match events with
  | [] => Some s
  | ev :: events' =>
    match runEvent ev s with
    | Some s' => runEvents events' s'
    | None => None
    end
  end.

(** The events the script can raise on a table with the keys of [d0]: the
    random index is below the number of keys, and a repair names a key. *)
Definition validEvent (d0 : EquipmentTable) (ev : EquipmentEvent) : Prop :=
  match ev with
  | CreateIssue _ => True
  | RandomIssue index _ => (index < length d0)%nat
  | Repair equipmentId _ => equipmentId ∈ Object_keys d0
  end.

(** Status and flag of an entry agree. *)
Definition coherentEntry (x : EquipmentData) : Prop :=
  (eq_hasIssue x = true /\ eq_status x = "FAULT") \/
  (eq_hasIssue x = false /\ eq_status x = "Running").

Definition coherent (d : EquipmentTable) : Prop :=
  Forall (fun p : string * EquipmentData => coherentEntry p.2) d.

(** ** The deflection at the pump, in doubles

    [Math.random() = 0.125] gives [angle = Math.PI / 4]; [cosEighthTurn] and
    [sinEighthTurn] are the doubles [Math.cos(Math.PI / 4)] and
    [Math.sin(Math.PI / 4)], 0.7071067811865476 and 0.7071067811865475. *)
Definition cosEighthTurn : float := 0x1.6a09e667f3bcdp-1%float.
Definition sinEighthTurn : float := 0x1.6a09e667f3bccp-1%float.

Definition pumpGround64 : Binary64.Vector3 :=
  Binary64.mkVector3 (-5)%float 0%float 5%float.

Definition deflectedFromPump64 : Binary64.Vector3 :=
  Binary64.deflect cosEighthTurn sinEighthTurn pumpGround64.

(** A rounding that errs by the full fraction [2^-53] on every result. *)
Definition roundAway (x : R) : R := x * (1 + / 2 ^ 53).

(** * Properties *)

(** ** Planar geometry *)

Section Geometry.

Lemma Vector2_length_nonneg (a b : R) : 0 <= Vector2_length a b.
Proof. apply sqrt_pos. Qed.



Lemma Vector2_length_axis (a : R) : Vector2_length a 0 = Rabs a.
Proof.
  unfold Vector2_length.
  replace (a * a + 0 * 0) with (a²) by (unfold Rsqr; ring).
  apply sqrt_Rsqr_abs.
Qed.



(** The length [update] measures after zeroing [direction.y] is the planar
    distance between the target and the position. *)
Lemma length_planar (v : Vector3) :
  Vector3_length (setY v 0) = Vector2_length (vx v) (vz v).
Proof. unfold Vector3_length, Vector2_length. simpl. f_equal. ring. Qed.

Lemma planarDistance_sym (p q : Vector3) : planarDistance p q = planarDistance q p.
Proof. unfold planarDistance, Vector2_length. f_equal. ring. Qed.


(** A unit-circle offset of radius [r] lies at planar distance [r]. *)
Lemma Vector2_length_circle (r theta : R) :
  0 <= r -> Vector2_length (cos theta * r) (sin theta * r) = r.
Proof.
  intros Hr. unfold Vector2_length.
  replace (cos theta * r * (cos theta * r) + sin theta * r * (sin theta * r))
    with (((sin theta)² + (cos theta)²) * (r * r)) by (unfold Rsqr; ring).
  rewrite sin2_cos2, Rmult_1_l. by apply sqrt_square.
Qed.

End Geometry.

(** ** [setState] *)

Section SetState.
Context {Callback : Type}.
Implicit Types e : Engineer Callback.

Lemma stateAnimationMap_idle : stateAnimationMap !! "idle" = Some "standing".
Proof. reflexivity. Qed.
Lemma stateAnimationMap_walking : stateAnimationMap !! "walking" = Some "walking".
Proof. reflexivity. Qed.
Lemma stateAnimationMap_talking : stateAnimationMap !! "talking" = Some "talking".
Proof. reflexivity. Qed.
Lemma stateAnimationMap_working : stateAnimationMap !! "working" = Some "working".
Proof. reflexivity. Qed.

(** [setState] writes [animations], [currentAnimation] and [currentState]
    only. *)
Lemma setState_frame s e :
  exists a anim st, setState s e = set_animation a anim st e.
Proof.
  unfold setState. destruct e; simpl.
  repeat case_match; eauto.
Qed.

Lemma setState_model s e : model (setState s e) = model e.
Proof. destruct (setState_frame s e) as (a & anim & st & ->). reflexivity. Qed.
Lemma setState_mixer s e : mixer (setState s e) = mixer e.
Proof. destruct (setState_frame s e) as (a & anim & st & ->). reflexivity. Qed.
Lemma setState_targetPosition s e : targetPosition (setState s e) = targetPosition e.
Proof. destruct (setState_frame s e) as (a & anim & st & ->). reflexivity. Qed.
Lemma setState_speed s e : speed (setState s e) = speed e.
Proof. destruct (setState_frame s e) as (a & anim & st & ->). reflexivity. Qed.
Lemma setState_isSpeaking s e : isSpeaking (setState s e) = isSpeaking e.
Proof. destruct (setState_frame s e) as (a & anim & st & ->). reflexivity. Qed.
Lemma setState_isWorking s e : isWorking (setState s e) = isWorking e.
Proof. destruct (setState_frame s e) as (a & anim & st & ->). reflexivity. Qed.
Lemma setState_onArrivalCallback s e :
  onArrivalCallback (setState s e) = onArrivalCallback e.
Proof. destruct (setState_frame s e) as (a & anim & st & ->). reflexivity. Qed.

(** The guard of [setState]: a state without a loaded clip is not entered. *)
Lemma setState_unknown s e : stateAnimationMap !! s = None -> setState s e = e.
Proof. intros H. unfold setState. rewrite H. by case_decide. Qed.

Lemma setState_missing s animName e :
  stateAnimationMap !! s = Some animName ->
  animations e !! animName = None ->
  setState s e = e.
Proof. intros H1 H2. unfold setState. rewrite H1, H2. by case_decide. Qed.

Lemma setState_same e : setState (currentState e) e = e.
Proof. unfold setState. by rewrite decide_True. Qed.

(** With the clip loaded the state is entered. *)
Lemma setState_loaded s animName e :
  stateAnimationMap !! s = Some animName ->
  is_Some (animations e !! animName) ->
  currentState (setState s e) = s.
Proof.
  intros H1 [a H2]. unfold setState. rewrite H1, H2.
  case_decide; [done | reflexivity].
Qed.

(** [setState] keeps the set of loaded clips. *)
Lemma setState_clips s e k :
  is_Some (animations (setState s e) !! k) <-> is_Some (animations e !! k).
Proof.
  unfold setState. case_decide; [done |].
  destruct (stateAnimationMap !! s) as [animName |]; [| done].
  destruct (animations e !! animName) eqn:Ha; [| done].
  simpl. rewrite lookup_alter. case_decide; subst.
  - rewrite lookup_fmap. rewrite <- !not_eq_None_Some.
    destruct (animations e !! k); simpl; naive_solver.
  - rewrite lookup_fmap. rewrite <- !not_eq_None_Some.
    destruct (animations e !! k); simpl; naive_solver.
Qed.

(** The entered state plays its clip, and only that one. *)
Lemma setState_plays s animName e :
  currentState e <> s ->
  stateAnimationMap !! s = Some animName ->
  is_Some (animations e !! animName) ->
  currentAnimation (setState s e) = Some animName /\
  forall k a, animations (setState s e) !! k = Some a ->
              act_running a = bool_decide (k = animName).
Proof.
  intros Hne H1 [a0 H2]. unfold setState. rewrite H1, H2.
  rewrite decide_False by done. simpl. split; [done |].
  intros k a. rewrite lookup_alter. case_decide; subst.
  - rewrite lookup_fmap, H2. simpl. intros [= <-]. simpl.
    by rewrite bool_decide_eq_true_2.
  - rewrite lookup_fmap. destruct (animations e !! k); simpl; [| done].
    intros [= <-]. simpl. by rewrite bool_decide_eq_false_2.
Qed.

End SetState.

(** ** [checkCollision] *)

Section Collision.
Context {Callback : Type}.
Implicit Types (e : Engineer Callback) (engineers : list (Engineer Callback)).

Lemma collidesWithEquipment_true (objs : list Obstacle) (p : Vector3) :
  collidesWithEquipment objs p = true <->
  exists obj, obj ∈ objs /\ planarDistance p (obj_worldPosition obj) < minDistance obj.
Proof.
  induction objs as [| obj rest IH]; simpl.
  - split; [done |]. intros (obj & Hin & _). by apply elem_of_nil in Hin.
  - case_decide as Hd.
    + split; [| done]. intros _. exists obj. split; [left | done].
    + rewrite IH. split.
      * intros (o & Hin & Ho). exists o. split; [by right | done].
      * intros (o & Hin & Ho). apply elem_of_cons in Hin as [-> | Hin]; [done |].
        by exists o.
Qed.

Lemma collidesWithEquipment_false (objs : list Obstacle) (p : Vector3) :
  collidesWithEquipment objs p = false <->
  forall obj, obj ∈ objs -> minDistance obj <= planarDistance p (obj_worldPosition obj).
Proof.
  rewrite <- not_true_iff_false, collidesWithEquipment_true. split.
  - intros Hn obj Hin. apply Rnot_lt_le. intros Hlt. apply Hn. by exists obj.
  - intros Hall (obj & Hin & Hlt). specialize (Hall obj Hin). lra.
Qed.

Lemma collidesWithEquipment_setY (objs : list Obstacle) (p : Vector3) (y : R) :
  collidesWithEquipment objs (setY p y) = collidesWithEquipment objs p.
Proof. induction objs as [| obj rest IH]; simpl; [done |]. by rewrite IH. Qed.

Lemma collidesWithEngineers_true (this j : nat) engineers (p : Vector3) :
  Part000.collidesWithEngineers this j engineers p = true <->
  exists (k : nat) other m,
    engineers !! k = Some other /\ (j + k)%nat <> this /\ model other = Some m /\
    planarDistance p (model_position m) < engineerRadius * 2.
Proof.
  revert j. induction engineers as [| other rest IH]; intros j; simpl.
  - split; [done |]. by intros (k & o & m & Hk & _).
  - assert (Hshift :
      (exists (k : nat) o m, rest !! k = Some o /\ (S j + k)%nat <> this /\
          model o = Some m /\ planarDistance p (model_position m) < engineerRadius * 2) ->
      exists (k : nat) o m, (other :: rest) !! k = Some o /\ (j + k)%nat <> this /\
          model o = Some m /\ planarDistance p (model_position m) < engineerRadius * 2).
    { intros (k & o & m & Hk & Hne & Hm & Hd). exists (S k), o, m.
      repeat split; try done. lia. }
    assert (Hhead : forall (k : nat) o m,
      (other :: rest) !! k = Some o -> (j + k)%nat <> this -> model o = Some m ->
      planarDistance p (model_position m) < engineerRadius * 2 ->
      (k = 0%nat /\ o = other) \/
      exists (k' : nat), rest !! k' = Some o /\ (S j + k')%nat <> this).
    { intros [| k'] o m Hk Hne _ _; simpl in Hk.
      - left. by injection Hk as <-.
      - right. exists k'. split; [done | lia]. }
    case_decide as Hj.
    + rewrite IH. split; [apply Hshift |].
      intros (k & o & m & Hk & Hne & Hm & Hd).
      destruct (Hhead k o m Hk Hne Hm Hd) as [[-> ->] | (k' & Hk' & Hne')].
      * exfalso. apply Hne. lia.
      * by exists k', o, m.
    + destruct (model other) as [m0 |] eqn:Hm0.
      * case_decide as Hd0.
        -- split; [| done]. intros _. exists 0%nat, other, m0.
           repeat split; try done. lia.
        -- rewrite IH. split; [apply Hshift |].
           intros (k & o & m & Hk & Hne & Hm & Hd).
           destruct (Hhead k o m Hk Hne Hm Hd) as [[-> ->] | (k' & Hk' & Hne')].
           ++ congruence.
           ++ by exists k', o, m.
      * rewrite IH. split; [apply Hshift |].
        intros (k & o & m & Hk & Hne & Hm & Hd).
        destruct (Hhead k o m Hk Hne Hm Hd) as [[-> ->] | (k' & Hk' & Hne')].
        -- congruence.
        -- by exists k', o, m.
Qed.

Lemma collidesWithEngineers_setY (this j : nat) engineers (p : Vector3) (y : R) :
  Part000.collidesWithEngineers this j engineers (setY p y)
  = Part000.collidesWithEngineers this j engineers p.
Proof.
  revert j. induction engineers as [| other rest IH]; intros j; simpl; [done |].
  by rewrite !IH.
Qed.

Lemma checkCollision_setY objs engineers (this : nat) (p : Vector3) (y : R) :
  Part000.checkCollision objs engineers this (setY p y)
  = Part000.checkCollision objs engineers this p.
Proof.
  unfold Part000.checkCollision.
  by rewrite collidesWithEquipment_setY, collidesWithEngineers_setY.
Qed.

(** A free position keeps the minimum separation from every obstacle. *)
Lemma checkCollision_free_equipment objs engineers (this : nat) (p : Vector3) :
  Part000.checkCollision objs engineers this p = false ->
  forall obj, obj ∈ objs -> minDistance obj <= planarDistance p (obj_worldPosition obj).
Proof.
  unfold Part000.checkCollision. intros H.
  apply collidesWithEquipment_false.
  by destruct (collidesWithEquipment objs p).
Qed.

Lemma mainjs_checkCollision_free objs (p : Vector3) :
  MainJs.checkCollision objs p = false ->
  forall obj, obj ∈ objs -> minDistance obj <= planarDistance p (obj_worldPosition obj).
Proof.
  unfold MainJs.checkCollision. intros H.
  apply collidesWithEquipment_false.
  by destruct (collidesWithEquipment objs p).
Qed.

End Collision.

(** ** [update] of [part_000], branch by branch *)

Section Part000Update.
Context {Callback : Type}.
Variable invoke : Callback -> Engineer Callback -> Engineer Callback.
Implicit Types (e : Engineer Callback) (engineers : list (Engineer Callback)).

#[local] Ltac state_cases :=
  repeat first [ case_decide | case_match ];
  rewrite ?setState_model, ?setState_mixer, ?setState_targetPosition, ?setState_speed,
    ?setState_isSpeaking, ?setState_isWorking, ?setState_onArrivalCallback;
  try done.

Lemma updateState_model e : model (Part000.updateState e) = model e.
Proof. unfold Part000.updateState. state_cases. Qed.
Lemma updateState_targetPosition e :
  targetPosition (Part000.updateState e) = targetPosition e.
Proof. unfold Part000.updateState. state_cases. Qed.
Lemma updateState_isWorking e : isWorking (Part000.updateState e) = isWorking e.
Proof. unfold Part000.updateState. state_cases. Qed.
Lemma updateState_isSpeaking e : isSpeaking (Part000.updateState e) = isSpeaking e.
Proof. unfold Part000.updateState. state_cases. Qed.
Lemma updateState_onArrivalCallback e :
  onArrivalCallback (Part000.updateState e) = onArrivalCallback e.
Proof. unfold Part000.updateState. state_cases. Qed.
Lemma updateState_mixer e : mixer (Part000.updateState e) = mixer e.
Proof. unfold Part000.updateState. state_cases. Qed.
Lemma updateState_speed e : speed (Part000.updateState e) = speed e.
Proof. unfold Part000.updateState. state_cases. Qed.

Lemma updateState_clips e k :
  is_Some (animations (Part000.updateState e) !! k) <-> is_Some (animations e !! k).
Proof. unfold Part000.updateState. state_cases; apply setState_clips. Qed.

Lemma updateState_working e :
  isWorking e = true -> is_Some (animations e !! "working") ->
  currentState (Part000.updateState e) = "working".
Proof.
  intros Hw Hc. unfold Part000.updateState. rewrite Hw.
  case_decide; [done |].
  by apply (setState_loaded _ "working").
Qed.

Lemma updateState_working_missing e :
  isWorking e = true -> animations e !! "working" = None ->
  Part000.updateState e = e.
Proof.
  intros Hw Hc. unfold Part000.updateState. rewrite Hw.
  case_decide; [done |].
  by apply (setState_missing _ "working").
Qed.

Lemma updateState_talking e :
  isWorking e = false -> isSpeaking e = true -> targetPosition e = None ->
  is_Some (animations e !! "talking") ->
  currentState (Part000.updateState e) = "talking".
Proof.
  intros Hw Hs Ht Hc. unfold Part000.updateState. rewrite Hw, Hs, Ht. simpl.
  case_decide; [done |].
  by apply (setState_loaded _ "talking").
Qed.

Lemma updateState_idle e :
  isWorking e = false -> isSpeaking e = false -> targetPosition e = None ->
  is_Some (animations e !! "standing") ->
  currentState (Part000.updateState e) = "idle".
Proof.
  intros Hw Hs Ht Hc. unfold Part000.updateState. rewrite Hw, Hs, Ht. simpl.
  case_decide; [done |].
  by apply (setState_loaded _ "standing").
Qed.

(** With a target and no work the state management leaves the state of the
    movement phase alone. *)
Lemma updateState_moving e t :
  isWorking e = false -> targetPosition e = Some t ->
  Part000.updateState e = e.
Proof.
  intros Hw Ht. unfold Part000.updateState. rewrite Hw, Ht. simpl.
  by rewrite andb_false_r.
Qed.

Lemma update_split objs engineers (this : nat) (dt : R) e :
  Part000.update invoke objs engineers this dt e =
  (Part000.updateState
     (Part000.updateMovement invoke objs engineers this
        (updateMixer dt e)).1,
   (Part000.updateMovement invoke objs engineers this
        (updateMixer dt e)).2).
Proof.
  unfold Part000.update.
  by destruct (Part000.updateMovement _ _ _ _ _) as [e1 called].
Qed.

(** A working engineer skips the movement phase. *)
Lemma updateMovement_working objs engineers (this : nat) e :
  isWorking e = true ->
  Part000.updateMovement invoke objs engineers this e = (e, []).
Proof.
  intros Hw. unfold Part000.updateMovement. rewrite Hw.
  by destruct (targetPosition e), (model e).
Qed.

Lemma updateMovement_no_target objs engineers (this : nat) e :
  targetPosition e = None ->
  Part000.updateMovement invoke objs engineers this e = (e, []).
Proof. intros Ht. unfold Part000.updateMovement. by rewrite Ht. Qed.

Lemma updateMovement_no_model objs engineers (this : nat) e :
  model e = None ->
  Part000.updateMovement invoke objs engineers this e = (e, []).
Proof.
  intros Hm. unfold Part000.updateMovement. rewrite Hm.
  by destruct (targetPosition e).
Qed.

(** The walking branch. *)
Lemma updateMovement_walk objs engineers (this : nat) e target m :
  Part000.movesTowards e target m ->
  Part000.updateMovement invoke objs engineers this e =
  (let direction := normalize (Part000.directionTo target (model_position m)) in
   let distance := Vector3_length (Part000.directionTo target (model_position m)) in
   set_model
     (Some (mkModel
        (Part000.stepPosition objs engineers this (model_position m) direction
           (Math_min (speed e) distance))
        (Part000.turnTowards direction (model_rotation_y m))))
     (if decide (currentState e = "walking") then e else setState "walking" e), []).
Proof.
  intros (Ht & Hm & Hw & Hd). unfold Part000.updateMovement.
  rewrite Ht, Hm, Hw. rewrite decide_True by done.
  case_decide; simpl; rewrite ?setState_speed; done.
Qed.

(** The arrival branch. *)
Lemma updateMovement_arrive objs engineers (this : nat) e target m :
  Part000.arrivesAt e target m ->
  Part000.updateMovement invoke objs engineers this e =
  match onArrivalCallback e with
  | Some cb =>
    let e2 := set_onArrivalCallback None (invoke cb (set_targetPosition None e)) in
    (if negb (isSpeaking e2) && negb (isWorking e2) then setState "idle" e2 else e2, [cb])
  | None =>
    let e1 := set_targetPosition None e in
    (if negb (isSpeaking e1) && negb (isWorking e1) then setState "idle" e1 else e1, [])
  end.
Proof.
  intros (Ht & Hm & Hw & Hd). unfold Part000.updateMovement.
  rewrite Ht, Hm, Hw. rewrite decide_False by (unfold Part000.arrivalThreshold in *; lra).
  simpl. by destruct (onArrivalCallback e).
Qed.

End Part000Update.

(** ** [update] of [main.js], branch by branch *)

Section MainJsUpdate.
Context {Callback : Type}.
Implicit Types (e : Engineer Callback).

Lemma mainjs_update_speaking objs (dt : R) e :
  isSpeaking e = true ->
  MainJs.update objs dt e =
  let e0 := updateMixer dt e in
  if decide (currentState e = "talking") then e0 else setState "talking" e0.
Proof. intros Hs. unfold MainJs.update, MainJs.stateMachine. simpl. by rewrite Hs. Qed.

Lemma mainjs_update_working objs (dt : R) e :
  isSpeaking e = false -> isWorking e = true ->
  MainJs.update objs dt e =
  let e0 := updateMixer dt e in
  if decide (currentState e = "working") then e0 else setState "working" e0.
Proof. intros Hs Hw. unfold MainJs.update, MainJs.stateMachine. simpl. by rewrite Hs, Hw. Qed.

Lemma mainjs_update_walk objs (dt : R) e target m :
  MainJs.movesTowards e target m ->
  MainJs.update objs dt e =
  let e0 := updateMixer dt e in
  let direction := normalize (MainJs.directionTo target (model_position m)) in
  let distance := Vector3_length (MainJs.directionTo target (model_position m)) in
  set_model
    (Some (mkModel
       (MainJs.stepPosition objs (model_position m) direction
          (Math_min (speed e) distance))
       (MainJs.turnTowards direction (model_rotation_y m))))
    (if decide (currentState e = "walking") then e0 else setState "walking" e0).
Proof.
  intros (Hs & Hw & Ht & Hm & Hd). unfold MainJs.update, MainJs.stateMachine. simpl.
  rewrite Hs, Hw, Ht, Hm. unfold MainJs.updateMovement.
  rewrite decide_True by done.
  simpl. case_decide; simpl; rewrite ?setState_speed; done.
Qed.

Lemma mainjs_update_arrive objs (dt : R) e target m :
  MainJs.arrivesAt e target m ->
  MainJs.update objs dt e =
  setState "idle" (set_targetPosition None (updateMixer dt e)).
Proof.
  intros (Hs & Hw & Ht & Hm & Hd). unfold MainJs.update, MainJs.stateMachine. simpl.
  rewrite Hs, Hw, Ht, Hm. unfold MainJs.updateMovement.
  rewrite decide_False by (unfold MainJs.arrivalThreshold in *; lra).
  simpl. by rewrite Hs, Hw.
Qed.

Lemma mainjs_update_rest objs (dt : R) e :
  isSpeaking e = false -> isWorking e = false ->
  targetPosition e = None \/ model e = None ->
  MainJs.update objs dt e = setState "idle" (updateMixer dt e).
Proof.
  intros Hs Hw Hn. unfold MainJs.update, MainJs.stateMachine. simpl. rewrite Hs, Hw. simpl.
  assert (Hidle : forall e0 : Engineer Callback,
    (if negb (bool_decide (currentState e0 = "idle")) && true && true
     then setState "idle" e0 else e0) = setState "idle" e0).
  { intros e0. case_bool_decide as Hc; simpl; [| done].
    unfold setState. by rewrite decide_True. }
  destruct Hn as [Hn | Hn]; rewrite Hn.
  - exact (Hidle (updateMixer dt e)).
  - destruct (targetPosition e);
      exact (Hidle (updateMixer dt e)).
Qed.

End MainJsUpdate.

(** ** The geometry of a step *)

Section StepGeometry.

Lemma number_or_nonzero (r d : R) : r <> 0 -> number_or (Some r) d = r.
Proof. intros H. unfold number_or. by rewrite decide_False. Qed.

(** The normalized direction towards the target, when the target is not
    reached. *)
Lemma normalize_direction (t p : Vector3) :
  let v := setY (subVectors t p) 0 in
  let d := Vector3_length v in
  0 < d ->
  normalize v = mkVector3 ((vx t - vx p) * (1 / d)) (0 * (1 / d)) ((vz t - vz p) * (1 / d)).
Proof.
  intros v d Hd. unfold normalize, multiplyScalar.
  fold d. rewrite number_or_nonzero by lra. reflexivity.
Qed.

Lemma normalize_direction_vy (t p : Vector3) :
  vy (normalize (setY (subVectors t p) 0)) = 0.
Proof. unfold normalize, multiplyScalar. simpl. ring. Qed.





Lemma rotateXZ_length (theta : R) (d : Vector3) :
  Vector2_length (vx (rotateXZ theta d)) (vz (rotateXZ theta d))
  = Vector2_length (vx d) (vz d).
Proof.
  unfold rotateXZ, Vector2_length. simpl. f_equal.
  replace ((vx d * cos theta - vz d * sin theta) * (vx d * cos theta - vz d * sin theta) +
           (vx d * sin theta + vz d * cos theta) * (vx d * sin theta + vz d * cos theta))
    with (((sin theta)² + (cos theta)²) * (vx d * vx d + vz d * vz d))
    by (unfold Rsqr; ring).
  rewrite sin2_cos2. ring.
Qed.

(** The two sidesteps of [update] are the quarter turns of the step. *)
Lemma perpendicular1_rotate (p dir : Vector3) (s : R) :
  vy dir = 0 ->
  addScaledVector p (Part000.perpendicular1 dir) s
  = vadd p (rotateXZ (PI / 2) (multiplyScalar dir s)).
Proof.
  intros Hy. unfold addScaledVector, vadd, rotateXZ, multiplyScalar, Part000.perpendicular1.
  simpl. rewrite cos_PI2, sin_PI2, Hy. f_equal; ring.
Qed.

Lemma perpendicular2_rotate (p dir : Vector3) (s : R) :
  vy dir = 0 ->
  addScaledVector p (Part000.perpendicular2 dir) s
  = vadd p (rotateXZ (- (PI / 2)) (multiplyScalar dir s)).
Proof.
  intros Hy. unfold addScaledVector, vadd, rotateXZ, multiplyScalar, Part000.perpendicular2.
  simpl. rewrite cos_neg, sin_neg, cos_PI2, sin_PI2, Hy. f_equal; ring.
Qed.

Lemma directCandidate_ground (p dir : Vector3) (s : R) :
  sameGround (Part000.directCandidate p dir s) (vadd p (multiplyScalar dir s)).
Proof. by split. Qed.

End StepGeometry.

(** ** [update] of [part_000], frame by frame *)

Section Part000Frames.
Context {Callback : Type}.
Variable invoke : Callback -> Engineer Callback -> Engineer Callback.
Implicit Types (e : Engineer Callback) (engineers : list (Engineer Callback)).

Lemma update_working objs engineers (this : nat) (dt : R) e :
  isWorking e = true ->
  Part000.update invoke objs engineers this dt e
  = (Part000.updateState (updateMixer dt e), []).
Proof.
  intros Hw. rewrite update_split.
  by rewrite (updateMovement_working invoke objs engineers this (updateMixer dt e) Hw).
Qed.

Lemma update_rest objs engineers (this : nat) (dt : R) e :
  targetPosition e = None \/ model e = None ->
  Part000.update invoke objs engineers this dt e
  = (Part000.updateState (updateMixer dt e), []).
Proof.
  intros [Hn | Hn]; rewrite update_split.
  - by rewrite (updateMovement_no_target invoke objs engineers this (updateMixer dt e) Hn).
  - by rewrite (updateMovement_no_model invoke objs engineers this (updateMixer dt e) Hn).
Qed.

Lemma update_walk objs engineers (this : nat) (dt : R) e target m :
  Part000.movesTowards e target m ->
  Part000.update invoke objs engineers this dt e =
  (let direction := normalize (Part000.directionTo target (model_position m)) in
   let distance := Vector3_length (Part000.directionTo target (model_position m)) in
   set_model
     (Some (mkModel
        (Part000.stepPosition objs engineers this (model_position m) direction
           (Math_min (speed e) distance))
        (Part000.turnTowards direction (model_rotation_y m))))
     (if decide (currentState e = "walking") then updateMixer dt e
      else setState "walking" (updateMixer dt e)), []).
Proof.
  intros Hmv. rewrite update_split.
  assert (Hmv' : Part000.movesTowards (updateMixer dt e) target m) by exact Hmv.
  rewrite (updateMovement_walk invoke objs engineers this _ _ _ Hmv').
  destruct Hmv as (Ht & Hm & Hw & Hd). simpl. f_equal.
  apply (updateState_moving _ target).
  - simpl. case_decide; rewrite ?setState_isWorking; done.
  - simpl. case_decide; rewrite ?setState_targetPosition; done.
Qed.

Lemma update_arrive objs engineers (this : nat) (dt : R) e target m :
  Part000.arrivesAt e target m ->
  Part000.update invoke objs engineers this dt e =
  match onArrivalCallback e with
  | Some cb =>
    let e2 := set_onArrivalCallback None
                (invoke cb (set_targetPosition None (updateMixer dt e))) in
    (Part000.updateState
       (if negb (isSpeaking e2) && negb (isWorking e2) then setState "idle" e2 else e2),
     [cb])
  | None =>
    let e1 := set_targetPosition None (updateMixer dt e) in
    (Part000.updateState
       (if negb (isSpeaking e1) && negb (isWorking e1) then setState "idle" e1 else e1),
     [])
  end.
Proof.
  intros Har. rewrite update_split.
  assert (Har' : Part000.arrivesAt (updateMixer dt e) target m) by exact Har.
  rewrite (updateMovement_arrive invoke objs engineers this _ _ _ Har').
  simpl. by destruct (onArrivalCallback e).
Qed.

(** Every frame is of one of the four kinds. *)
Lemma frame_cases e :
  isWorking e = true \/ (targetPosition e = None \/ model e = None) \/
  exists target m, Part000.movesTowards e target m \/ Part000.arrivesAt e target m.
Proof.
  destruct (isWorking e) eqn:Hw; [by left | right].
  destruct (targetPosition e) as [t |] eqn:Ht; [| left; by left].
  destruct (model e) as [m |] eqn:Hm; [| left; by right].
  right. exists t, m.
  destruct (Rlt_le_dec Part000.arrivalThreshold
              (Vector3_length (Part000.directionTo t (model_position m)))).
  - left. by repeat split.
  - right. by repeat split.
Qed.

End Part000Frames.

(** ** Deciding concrete distances *)

Section Concrete.

Lemma Vector2_length_ge (a b r : R) :
  r * r <= a * a + b * b -> r <= Vector2_length a b.
Proof.
  intros H. destruct (Rle_dec 0 r) as [Hr | Hr].
  - rewrite <- (sqrt_square r) by done. by apply sqrt_le_1_alt.
  - pose proof (Vector2_length_nonneg a b). lra.
Qed.

Lemma Vector2_length_lt (a b r : R) :
  0 < r -> a * a + b * b < r * r -> Vector2_length a b < r.
Proof.
  intros Hr H. rewrite <- (sqrt_square r) by lra.
  apply sqrt_lt_1_alt. split; [nra | done].
Qed.

Lemma Vector2_length_le (a b r : R) :
  0 <= r -> a * a + b * b <= r * r -> Vector2_length a b <= r.
Proof.
  intros Hr H. rewrite <- (sqrt_square r) by lra.
  by apply sqrt_le_1_alt.
Qed.

Lemma Vector2_length_gt (a b r : R) :
  0 <= r -> r * r < a * a + b * b -> Vector2_length a b > r.
Proof.
  intros Hr H. rewrite <- (sqrt_square r) by lra.
  apply Rlt_gt, sqrt_lt_1_alt. split; [nra | done].
Qed.

Lemma minDistance_radius (obj : Obstacle) (r : R) :
  obj_radius obj = Some r -> r <> 0 -> minDistance obj = engineerRadius + r.
Proof.
  intros H Hr. unfold minDistance, collisionRadius. rewrite H.
  by rewrite number_or_nonzero.
Qed.

End Concrete.

(** ** Where a frame may put the engineer *)

Section Positions.
Context {Callback : Type}.
Variable invoke : Callback -> Engineer Callback -> Engineer Callback.
Implicit Types (e : Engineer Callback) (engineers : list (Engineer Callback)).

Lemma stepPosition_cases objs engineers (this : nat) (pos dir : Vector3) (s : R) :
  Part000.stepPosition objs engineers this pos dir s = pos \/
  Part000.checkCollision objs engineers this
    (Part000.stepPosition objs engineers this pos dir s) = false.
Proof.
  unfold Part000.stepPosition.
  destruct (Part000.checkCollision objs engineers this (Part000.directCandidate pos dir s))
    eqn:H0; simpl; [| by right].
  destruct (Part000.checkCollision objs engineers this
              (addScaledVector pos (Part000.perpendicular1 dir) s)) eqn:H1;
    simpl; [| by right].
  destruct (Part000.checkCollision objs engineers this
              (addScaledVector pos (Part000.perpendicular2 dir) s)) eqn:H2;
    simpl; [by left | by right].
Qed.

Lemma mainjs_stepPosition_cases objs (pos dir : Vector3) (s : R) :
  MainJs.stepPosition objs pos dir s = pos \/
  MainJs.checkCollision objs (MainJs.stepPosition objs pos dir s) = false.
Proof.
  unfold MainJs.stepPosition.
  destruct (MainJs.checkCollision objs (MainJs.directCandidate pos dir s)) eqn:H0;
    simpl; [by left | by right].
Qed.

(** A frame of [part_000] that runs no callback leaves the model alone or
    takes a walking step. *)
Lemma update_model_cases objs engineers (this : nat) (dt : R) e :
  (Part000.update invoke objs engineers this dt e).2 = [] ->
  model (Part000.update invoke objs engineers this dt e).1 = model e \/
  exists target m, Part000.movesTowards e target m /\
    model (Part000.update invoke objs engineers this dt e).1 =
    Some (mkModel
      (Part000.stepPosition objs engineers this (model_position m)
         (normalize (Part000.directionTo target (model_position m)))
         (Math_min (speed e) (Vector3_length (Part000.directionTo target (model_position m)))))
      (Part000.turnTowards (normalize (Part000.directionTo target (model_position m)))
         (model_rotation_y m))).
Proof.
  destruct (frame_cases e) as [Hw | [Hn | (t & m & [Hmv | Har])]].
  - rewrite (update_working invoke objs engineers this dt e Hw). simpl.
    intros _. left. by rewrite updateState_model.
  - rewrite (update_rest invoke objs engineers this dt e Hn). simpl.
    intros _. left. by rewrite updateState_model.
  - rewrite (update_walk invoke objs engineers this dt e t m Hmv). simpl.
    intros _. right. by exists t, m.
  - rewrite (update_arrive invoke objs engineers this dt e t m Har).
    destruct (onArrivalCallback e) as [cb |]; simpl; [done |].
    intros _. left. rewrite updateState_model.
    case_match; rewrite ?setState_model; done.
Qed.

Lemma mainjs_frame_cases e :
  isSpeaking e = true \/ (isSpeaking e = false /\ isWorking e = true) \/
  (isSpeaking e = false /\ isWorking e = false /\
     (targetPosition e = None \/ model e = None)) \/
  exists target m, MainJs.movesTowards e target m \/ MainJs.arrivesAt e target m.
Proof.
  destruct (isSpeaking e) eqn:Hs; [by left | right].
  destruct (isWorking e) eqn:Hw; [by left | right].
  destruct (targetPosition e) as [t |] eqn:Ht; [| left; repeat split; by left].
  destruct (model e) as [m |] eqn:Hm; [| left; repeat split; by right].
  right. exists t, m.
  destruct (Rlt_le_dec MainJs.arrivalThreshold
              (Vector3_length (MainJs.directionTo t (model_position m)))).
  - left. by repeat split.
  - right. by repeat split.
Qed.

Lemma mainjs_update_model_cases objs (dt : R) e :
  model (MainJs.update objs dt e) = model e \/
  exists target m, MainJs.movesTowards e target m /\
    model (MainJs.update objs dt e) =
    Some (mkModel
      (MainJs.stepPosition objs (model_position m)
         (normalize (MainJs.directionTo target (model_position m)))
         (Math_min (speed e) (Vector3_length (MainJs.directionTo target (model_position m)))))
      (MainJs.turnTowards (normalize (MainJs.directionTo target (model_position m)))
         (model_rotation_y m))).
Proof.
  destruct (mainjs_frame_cases e)
    as [Hs | [[Hs Hw] | [(Hs & Hw & Hn) | (t & m & [Hmv | Har])]]].
  - left. rewrite (mainjs_update_speaking objs dt e Hs). simpl.
    case_decide; rewrite ?setState_model; done.
  - left. rewrite (mainjs_update_working objs dt e Hs Hw). simpl.
    case_decide; rewrite ?setState_model; done.
  - left. rewrite (mainjs_update_rest objs dt e Hs Hw Hn).
    by rewrite setState_model.
  - right. exists t, m. split; [done |].
    by rewrite (mainjs_update_walk objs dt e t m Hmv).
  - left. rewrite (mainjs_update_arrive objs dt e t m Har).
    by rewrite setState_model.
Qed.

End Positions.

(** ** Recognising the kind of a frame on concrete data *)

Section Guards.
Context {Callback : Type}.
Implicit Types (e : Engineer Callback).

Lemma direction_length (t p : Vector3) :
  Vector3_length (setY (subVectors t p) 0) = planarDistance t p.
Proof. by rewrite length_planar. Qed.

Lemma movesTowards_far e t m (r : R) :
  targetPosition e = Some t -> model e = Some m -> isWorking e = false ->
  0 <= r -> Part000.arrivalThreshold <= r ->
  r * r < (vx t - vx (model_position m)) * (vx t - vx (model_position m))
          + (vz t - vz (model_position m)) * (vz t - vz (model_position m)) ->
  Part000.movesTowards e t m.
Proof.
  intros Ht Hm Hw Hr Hth Hd. repeat split; try done.
  unfold Part000.directionTo. rewrite direction_length.
  pose proof (Vector2_length_gt _ _ r Hr Hd) as Hgt.
  unfold planarDistance. lra.
Qed.

Lemma arrivesAt_near e t m :
  targetPosition e = Some t -> model e = Some m -> isWorking e = false ->
  (vx t - vx (model_position m)) * (vx t - vx (model_position m))
  + (vz t - vz (model_position m)) * (vz t - vz (model_position m))
  <= Part000.arrivalThreshold * Part000.arrivalThreshold ->
  Part000.arrivesAt e t m.
Proof.
  intros Ht Hm Hw Hd. repeat split; try done.
  unfold Part000.directionTo. rewrite direction_length.
  apply Vector2_length_le; [unfold Part000.arrivalThreshold; lra | done].
Qed.

Lemma mainjs_movesTowards_far e t m (r : R) :
  isSpeaking e = false -> isWorking e = false ->
  targetPosition e = Some t -> model e = Some m ->
  0 <= r -> MainJs.arrivalThreshold <= r ->
  r * r < (vx t - vx (model_position m)) * (vx t - vx (model_position m))
          + (vz t - vz (model_position m)) * (vz t - vz (model_position m)) ->
  MainJs.movesTowards e t m.
Proof.
  intros Hs Hw Ht Hm Hr Hth Hd. repeat split; try done.
  unfold MainJs.directionTo. rewrite direction_length.
  pose proof (Vector2_length_gt _ _ r Hr Hd) as Hgt.
  unfold planarDistance. lra.
Qed.

(** The length of a vector along the x axis. *)
Lemma length_along_x (t p : Vector3) (d : R) :
  vz t = vz p -> vx t - vx p = d -> 0 <= d ->
  Vector3_length (setY (subVectors t p) 0) = d.
Proof.
  intros Hz Hx Hd. rewrite direction_length. unfold planarDistance.
  rewrite Hx, Hz. replace (vz p - vz p) with 0 by ring.
  rewrite Vector2_length_axis. by apply Rabs_pos_eq.
Qed.

End Guards.

(** ** The step of [part_000] and [stepAround] *)

Section StepAround.
Context {Callback : Type}.
Implicit Types (e : Engineer Callback) (engineers : list (Engineer Callback)).

Lemma stepPosition_stepAround objs engineers (this : nat) (pos dir : Vector3) (s : R) :
  vy dir = 0 ->
  sameGround (Part000.stepPosition objs engineers this pos dir s)
             (stepAround (Part000.checkCollision objs engineers this) pos
                (multiplyScalar dir s)) /\
  (vy pos = 0 ->
   Part000.stepPosition objs engineers this pos dir s
   = stepAround (Part000.checkCollision objs engineers this) pos (multiplyScalar dir s)).
Proof.
  intros Hy. unfold Part000.stepPosition, stepAround.
  rewrite <- (perpendicular1_rotate pos dir s Hy), <- (perpendicular2_rotate pos dir s Hy).
  unfold Part000.directCandidate. rewrite checkCollision_setY.
  change (vadd pos (multiplyScalar dir s)) with (addScaledVector pos dir s).
  destruct (Part000.checkCollision objs engineers this (addScaledVector pos dir s)); simpl.
  - split; [| done]. by split.
  - split; [by split |]. intros Hp.
    unfold setY, addScaledVector. simpl. f_equal. rewrite Hp, Hy. ring.
Qed.

Lemma stepPosition_blocked objs engineers (this : nat) (pos dir : Vector3) (s : R) :
  Part000.checkCollision objs engineers this (Part000.directCandidate pos dir s) = true ->
  Part000.checkCollision objs engineers this
    (addScaledVector pos (Part000.perpendicular1 dir) s) = true ->
  Part000.checkCollision objs engineers this
    (addScaledVector pos (Part000.perpendicular2 dir) s) = true ->
  Part000.stepPosition objs engineers this pos dir s = pos.
Proof. intros H0 H1 H2. unfold Part000.stepPosition. by rewrite H0, H1, H2. Qed.

Lemma mainjs_blocked_single (obj : Obstacle) (p : Vector3) :
  planarDistance p (obj_worldPosition obj) < minDistance obj ->
  MainJs.checkCollision [obj] p = true.
Proof. intros H. unfold MainJs.checkCollision. simpl. by rewrite decide_True. Qed.

Lemma mainjs_free_single (obj : Obstacle) (p : Vector3) :
  minDistance obj <= planarDistance p (obj_worldPosition obj) ->
  MainJs.checkCollision [obj] p = false.
Proof.
  intros H. unfold MainJs.checkCollision. simpl.
  rewrite decide_False; [done | lra].
Qed.

End StepAround.

(** ** The step of an engineer walking into the pump *)

Section PumpScene.

(** From the left of the pump towards its right, the step is 0.05 along x. *)
Lemma pump_step_delta :
  let pos := mkVector3 (-7) 0 5 in
  let target := mkVector3 (-3) 0 5 in
  multiplyScalar (normalize (setY (subVectors target pos) 0))
    (Math_min 0.05 (planarDistance target pos))
  = mkVector3 0.05 0 0.
Proof.
  intros pos target.
  assert (Hd : planarDistance target pos = 4).
  { rewrite <- direction_length. apply length_along_x; simpl; lra. }
  rewrite normalize_direction by (rewrite direction_length, Hd; lra).
  rewrite direction_length, Hd.
  unfold Math_min. rewrite Rmin_left by lra.
  unfold multiplyScalar. simpl. f_equal; lra.
Qed.

(** The direct candidate is inside the clearance of the pump. *)
Lemma pump_direct_near :
  planarDistance (vadd (mkVector3 (-7) 0 5) (mkVector3 0.05 0 0)) (obj_worldPosition pump)
  < minDistance pump.
Proof.
  rewrite (minDistance_radius pump 1.5) by (done || lra).
  unfold planarDistance, engineerRadius. simpl. apply Vector2_length_lt; lra.
Qed.

(** The first sidestep is outside of it. *)
Lemma pump_sidestep_far :
  minDistance pump
  <= planarDistance (vadd (mkVector3 (-7) 0 5) (rotateXZ (PI / 2) (mkVector3 0.05 0 0)))
       (obj_worldPosition pump).
Proof.
  rewrite (minDistance_radius pump 1.5) by (done || lra).
  unfold planarDistance, engineerRadius, rotateXZ. simpl.
  rewrite cos_PI2, sin_PI2. apply Vector2_length_ge. lra.
Qed.

End PumpScene.

(** ** The mixer clock and the rest of the frame *)

Section Mixer.
Context {Callback : Type}.
Variable invoke : Callback -> Engineer Callback -> Engineer Callback.
Implicit Types (e : Engineer Callback) (engineers : list (Engineer Callback)).



Lemma set_model_set_mixer m x e :
  set_model m (set_mixer x e) = set_mixer x (set_model m e).
Proof. reflexivity. Qed.












End Mixer.

(** ** Frames without a pending callback *)

Section Quiet.
Context {Callback : Type}.
Variable invoke : Callback -> Engineer Callback -> Engineer Callback.
Implicit Types (e : Engineer Callback) (engineers : list (Engineer Callback)).

(** After any frame of the arrival branch no callback is pending; in any
    other frame the pending callback is kept. *)
Lemma update_onArrivalCallback objs engineers (this : nat) (dt : R) e :
  onArrivalCallback (Part000.update invoke objs engineers this dt e).1 = None \/
  onArrivalCallback (Part000.update invoke objs engineers this dt e).1
  = onArrivalCallback e.
Proof.
  destruct (frame_cases e) as [Hw | [Hn | (t & m & [Hmv | Har])]].
  - right. rewrite (update_working invoke objs engineers this dt e Hw). simpl.
    by rewrite updateState_onArrivalCallback.
  - right. rewrite (update_rest invoke objs engineers this dt e Hn). simpl.
    by rewrite updateState_onArrivalCallback.
  - right. rewrite (update_walk invoke objs engineers this dt e t m Hmv). simpl.
    case_decide; rewrite ?setState_onArrivalCallback; done.
  - rewrite (update_arrive invoke objs engineers this dt e t m Har).
    destruct (onArrivalCallback e) as [cb |] eqn:Hcb; simpl.
    + left. rewrite updateState_onArrivalCallback.
      case_match; rewrite ?setState_onArrivalCallback; done.
    + left. rewrite updateState_onArrivalCallback.
      case_match; rewrite ?setState_onArrivalCallback; done.
Qed.

Lemma update_quiet_frame objs engineers (this : nat) (dt : R) e :
  onArrivalCallback e = None ->
  (Part000.update invoke objs engineers this dt e).2 = [] /\
  onArrivalCallback (Part000.update invoke objs engineers this dt e).1 = None.
Proof.
  intros Hcb. split.
  - destruct (frame_cases e) as [Hw | [Hn | (t & m & [Hmv | Har])]].
    + by rewrite (update_working invoke objs engineers this dt e Hw).
    + by rewrite (update_rest invoke objs engineers this dt e Hn).
    + by rewrite (update_walk invoke objs engineers this dt e t m Hmv).
    + by rewrite (update_arrive invoke objs engineers this dt e t m Har), Hcb.
  - destruct (update_onArrivalCallback objs engineers this dt e) as [H | H]; congruence.
Qed.

(** Without a pending callback no run of frames invokes one. *)
Lemma simulate_quiet (frames : list (Frame Callback)) e :
  onArrivalCallback e = None ->
  (simulate invoke frames e).2 = [] /\
  onArrivalCallback (simulate invoke frames e).1 = None.
Proof.
  revert e. induction frames as [| f rest IH]; intros e Hcb; simpl; [done |].
  destruct (update_quiet_frame (frame_objects f) (frame_engineers f) (frame_this f)
              (frame_deltaTime f) e Hcb) as [Hq Hn].
  destruct (Part000.update invoke (frame_objects f) (frame_engineers f) (frame_this f)
              (frame_deltaTime f) e) as [e1 called1].
  simpl in Hq, Hn. subst called1.
  destruct (IH e1 Hn) as [Hq' Hn'].
  destruct (simulate invoke rest e1) as [e2 called2].
  simpl in *. by subst.
Qed.

End Quiet.

(** ** The state after a walking frame *)

Section WalkState.
Context {Callback : Type}.
Variable invoke : Callback -> Engineer Callback -> Engineer Callback.
Implicit Types (e : Engineer Callback) (engineers : list (Engineer Callback)).

Lemma mainjs_walk_state objs (dt : R) e t m :
  MainJs.movesTowards e t m -> is_Some (animations e !! "walking") ->
  targetPosition (MainJs.update objs dt e) = targetPosition e /\
  currentState (MainJs.update objs dt e) = "walking".
Proof.
  intros Hmv Hc. rewrite (mainjs_update_walk objs dt e t m Hmv). simpl.
  case_decide; rewrite ?setState_targetPosition; (split; [done |]); [done |].
  by apply (setState_loaded _ "walking").
Qed.

Lemma walk_state objs engineers (this : nat) (dt : R) e t m :
  Part000.movesTowards e t m -> is_Some (animations e !! "walking") ->
  currentState (Part000.update invoke objs engineers this dt e).1 = "walking".
Proof.
  intros Hmv Hc. rewrite (update_walk invoke objs engineers this dt e t m Hmv). simpl.
  case_decide; [done |]. by apply (setState_loaded _ "walking").
Qed.

End WalkState.

(** ** The clip of each state *)

Section Clips.
Context {Callback : Type}.
Implicit Types (e : Engineer Callback).

Lemma clipOf_idle e : clipOf e "idle" = animations e !! "standing".
Proof. reflexivity. Qed.
Lemma clipOf_walking e : clipOf e "walking" = animations e !! "walking".
Proof. reflexivity. Qed.
Lemma clipOf_talking e : clipOf e "talking" = animations e !! "talking".
Proof. reflexivity. Qed.
Lemma clipOf_working e : clipOf e "working" = animations e !! "working".
Proof. reflexivity. Qed.

End Clips.

(** ** The state of a working or speaking engineer *)

Section Busy.
Context {Callback : Type}.
Variable invoke : Callback -> Engineer Callback -> Engineer Callback.
Implicit Types (e : Engineer Callback) (engineers : list (Engineer Callback)).

(** Without the working clip a working engineer keeps its state. *)
Lemma working_missing_clip_state objs engineers (this : nat) (dt : R) e :
  isWorking e = true -> animations e !! "working" = None ->
  currentState (Part000.update invoke objs engineers this dt e).1 = currentState e.
Proof.
  intros Hw Hc. rewrite (update_working invoke objs engineers this dt e Hw). simpl.
  by rewrite (updateState_working_missing (updateMixer dt e) Hw Hc).
Qed.

(** In [main.js] a speaking engineer talks, whatever else is set. *)
Lemma mainjs_speaking_state objs (dt : R) e :
  isSpeaking e = true -> is_Some (animations e !! "talking") ->
  currentState (MainJs.update objs dt e) = "talking".
Proof.
  intros Hs Hc. rewrite (mainjs_update_speaking objs dt e Hs). simpl.
  case_decide; [done |]. by apply (setState_loaded _ "talking").
Qed.

End Busy.

(** ** Rounding to doubles *)

Section Rounding.

Lemma Rabs_le_bounds (a b : R) : Rabs a <= b -> - b <= a <= b.
Proof. unfold Rabs. destruct (Rcase_abs a); lra. Qed.

Lemma subnormal_le : / 2 ^ 1075 <= / 2 ^ 53.
Proof.
  apply Rinv_le_contravar; [apply pow_lt; lra |].
  apply Rle_pow; [lra | lia].
Qed.

Lemma subnormal_pos : 0 < / 2 ^ 1075.
Proof. apply Rinv_0_lt_compat, pow_lt. lra. Qed.

Lemma below_overflow (B : R) : B <= 1024 -> B <= 2 ^ 1023.
Proof.
  intros HB. apply Rle_trans with (2 ^ 10); [lra |].
  apply Rle_pow; [lra | lia].
Qed.

(** The error of one rounded operation whose exact result is at most [B]. *)
Lemma fl_error (fl : R -> R) (x B : R) :
  roundsToNearest fl -> Rabs x <= B -> B <= 1024 ->
  Rabs (fl x - x) <= (B + 1) / 2 ^ 53.
Proof.
  intros Hfl Hx HB.
  assert (Hr : Rabs x <= 2 ^ 1023) by (apply below_overflow; lra).
  pose proof (Hfl x Hr) as He.
  pose proof subnormal_le as Hs.
  assert (Hu : 0 < / 2 ^ 53) by (apply Rinv_0_lt_compat, pow_lt; lra).
  apply Rle_trans with (1 := He).
  unfold Rdiv. nra.
Qed.

(** One coordinate of the deflected point: [fl (t + fl (c * 3))] against
    [t + 3 v], where the double [c] approximates [v]. *)
Lemma rounded_offset (fl : R -> R) (t c v : R) :
  roundsToNearest fl ->
  Rabs t <= 1000 -> Rabs (c - v) <= / 2 ^ 52 -> Rabs v <= 1 ->
  Rabs (fl (t + fl (c * 3)) - t - 3 * v) <= 1024 / 2 ^ 53.
Proof.
  intros Hfl Ht Hc Hv.
  apply Rabs_le_bounds in Ht, Hc, Hv.
  assert (Hc3 : Rabs (c * 3) <= 6) by (apply Rabs_le; lra).
  pose proof (fl_error fl (c * 3) 6 Hfl Hc3 ltac:(lra)) as Ha.
  apply Rabs_le_bounds in Ha.
  assert (Hs : Rabs (t + fl (c * 3)) <= 1007) by (apply Rabs_le; lra).
  pose proof (fl_error fl (t + fl (c * 3)) 1007 Hfl Hs ltac:(lra)) as Hx.
  apply Rabs_le_bounds in Hx.
  apply Rabs_le. lra.
Qed.

(** A point within [err] of the circle of radius 3, coordinate by
    coordinate, is within [3 * err] of it in distance. *)
Lemma near_circle (theta dx dz err : R) :
  0 <= err <= 1 / 2 ->
  Rabs (dx - 3 * cos theta) <= err -> Rabs (dz - 3 * sin theta) <= err ->
  Rabs (Vector2_length dx dz - 3) <= 3 * err.
Proof.
  intros He Hx Hz.
  apply Rabs_le_bounds in Hx, Hz.
  pose proof (sin2_cos2 theta) as Hcs. unfold Rsqr in Hcs.
  pose proof (COS_bound theta) as Hcb. pose proof (SIN_bound theta) as Hsb.
  set (C := cos theta) in *. set (S := sin theta) in *.
  set (a := dx - 3 * C) in *. set (b := dz - 3 * S) in *.
  assert (HaC : - err <= a * C <= err) by nra.
  assert (HbS : - err <= b * S <= err) by nra.
  assert (Haa : 0 <= a * a <= err * err) by nra.
  assert (Hbb : 0 <= b * b <= err * err) by nra.
  assert (Hee : err * err <= err / 2) by nra.
  assert (Hsum : dx * dx + dz * dz
                 = 9 * (S * S + C * C) + 6 * (a * C + b * S) + a * a + b * b).
  { unfold a, b. ring. }
  rewrite Hcs in Hsum.
  apply Rabs_le. split.
  - assert (3 - 3 * err <= Vector2_length dx dz); [| lra].
    apply Vector2_length_ge. nra.
  - assert (Vector2_length dx dz <= 3 + 3 * err); [| lra].
    apply Vector2_length_le; [lra | nra].
Qed.

(** The deflected point the doubles store is within [10^-12] of distance 3
    from the requested target. *)
Lemma deflectRounded_distance (fl : R -> R) (theta cosAngle sinAngle : R) (T : Vector3) :
  roundsToNearest fl ->
  Rabs (cosAngle - cos theta) <= / 2 ^ 52 ->
  Rabs (sinAngle - sin theta) <= / 2 ^ 52 ->
  Rabs (vx T) <= 1000 -> Rabs (vz T) <= 1000 ->
  Rabs (planarDistance (deflectRounded fl cosAngle sinAngle T) T - 3) <= / 10 ^ 12.
Proof.
  intros Hfl Hc Hs Hx Hz.
  assert (Hcb : Rabs (cos theta) <= 1) by (apply Rabs_le, COS_bound).
  assert (Hsb : Rabs (sin theta) <= 1) by (apply Rabs_le, SIN_bound).
  pose proof (rounded_offset fl (vx T) cosAngle (cos theta) Hfl Hx Hc Hcb) as Hdx.
  pose proof (rounded_offset fl (vz T) sinAngle (sin theta) Hfl Hz Hs Hsb) as Hdz.
  unfold planarDistance, deflectRounded. cbn [vx vz].
  apply Rle_trans with (3 * (1024 / 2 ^ 53)); [| lra].
  apply (near_circle theta); [lra | exact Hdx | exact Hdz].
Qed.

(** Without rounding and with the exact cosine and sine, the distance is 3,
    and [moveToRounded] is [moveTo]. *)
Lemma deflectRounded_exact (fl : R -> R) (theta : R) (T : Vector3) :
  (forall x, fl x = x) ->
  planarDistance (deflectRounded fl (cos theta) (sin theta) T) T = 3.
Proof.
  intros Hfl. unfold planarDistance, deflectRounded. cbn [vx vz].
  rewrite !Hfl.
  replace (vx T + cos theta * 3 - vx T) with (cos theta * 3) by ring.
  replace (vz T + sin theta * 3 - vz T) with (sin theta * 3) by ring.
  apply Vector2_length_circle. lra.
Qed.

Lemma deflectRounded_deflect (random : R) (T : Vector3) :
  deflectRounded (fun x => x) (cos (random * PI * 2)) (sin (random * PI * 2)) T
  = Part000.deflect random T /\
  deflectRounded (fun x => x) (cos (random * PI * 2)) (sin (random * PI * 2)) T
  = MainJs.deflect random T.
Proof. split; reflexivity. Qed.

Lemma roundAway_rounds : roundsToNearest roundAway.
Proof.
  intros x _. unfold roundAway.
  replace (x * (1 + / 2 ^ 53) - x) with (x * / 2 ^ 53) by ring.
  assert (Hu : 0 < / 2 ^ 53) by (apply Rinv_0_lt_compat, pow_lt; lra).
  rewrite Rabs_mult, (Rabs_pos_eq (/ 2 ^ 53)) by lra.
  pose proof subnormal_pos. unfold Rdiv. lra.
Qed.

(** The doubles stored at the pump. *)
Lemma deflectedFromPump64_vx :
  FloatOps.Prim2SF (Binary64.vx deflectedFromPump64)
  = SpecFloat.S754_finite true 6482210314031910 (-51).
Proof. vm_compute. reflexivity. Qed.

Lemma deflectedFromPump64_vz :
  FloatOps.Prim2SF (Binary64.vz deflectedFromPump64)
  = SpecFloat.S754_finite false 8017893911410284 (-50).
Proof. vm_compute. reflexivity. Qed.

End Rounding.

(** * The claims *)

(** C9.  When the clip of the requested state is missing or not yet loaded,
    [setState] changes nothing: the state, the current animation and every
    action are as before (and [setState] is total, it raises nothing). *)
Theorem setState_missing_clip_noop {Callback : Type} (e : Engineer Callback)
    (newState : string) :
  clipOf e newState = None -> setState newState e = e.
Proof.
  unfold clipOf. intros H.
  destruct (stateAnimationMap !! newState) as [animName |] eqn:Hs.
  - by apply (setState_missing _ animName).
  - by apply setState_unknown.
Qed.

Lemma setState_missing_clip_noop_witness :
  clipOf (loadingAt "Mike" origin) "working" = None /\
  currentAnimation (loadingAt "Mike" origin) = Some "standing" /\
  setState "working" (loadingAt "Mike" origin) = loadingAt "Mike" origin.
Proof.
  split; [reflexivity |]. split; [reflexivity |].
  apply setState_missing_clip_noop. reflexivity.
Defined.

(** C6.  While [isWorking] is set a frame changes neither the position (the
    whole model is untouched) nor [targetPosition], and invokes no callback;
    in both scripts. *)
Theorem working_holds_position {Callback : Type}
    (invoke : Callback -> Engineer Callback -> Engineer Callback)
    (objs : list Obstacle) (engineers : list (Engineer Callback)) (this : nat)
    (dt : R) (e : Engineer Callback) :
  isWorking e = true ->
  (model (Part000.update invoke objs engineers this dt e).1 = model e /\
   targetPosition (Part000.update invoke objs engineers this dt e).1 = targetPosition e /\
   (Part000.update invoke objs engineers this dt e).2 = []) /\
  (model (MainJs.update objs dt e) = model e /\
   targetPosition (MainJs.update objs dt e) = targetPosition e).
Proof.
  intros Hw. split.
  - rewrite (update_working invoke objs engineers this dt e Hw). simpl.
    by rewrite updateState_model, updateState_targetPosition.
  - destruct (isSpeaking e) eqn:Hs.
    + rewrite (mainjs_update_speaking objs dt e Hs). simpl.
      case_decide; rewrite ?setState_model, ?setState_targetPosition; done.
    + rewrite (mainjs_update_working objs dt e Hs Hw). simpl.
      case_decide; rewrite ?setState_model, ?setState_targetPosition; done.
Qed.

Lemma working_holds_position_witness :
  let e := work (Part000.moveTo [pump] [] 0 0 (mkVector3 3 0 0) None
                   (loadedAt "Mike" origin)) in
  isWorking e = true /\
  targetPosition e = Some (mkVector3 3 0 0) /\
  model (Part000.update runFixArrival [pump] [e] 0 (1 / 60) e).1 = model e /\
  targetPosition (Part000.update runFixArrival [pump] [e] 0 (1 / 60) e).1
    = targetPosition e.
Proof.
  intros e.
  assert (Hfree : Part000.checkCollision [pump] ([] : list (Engineer FixArrival)) 0
                    (mkVector3 3 0 0) = false).
  { unfold Part000.checkCollision. simpl.
    rewrite decide_False; [done |].
    rewrite (minDistance_radius pump 1.5) by (done || lra).
    apply Rle_not_lt. unfold engineerRadius. apply Vector2_length_ge. simpl. lra. }
  assert (Ht : targetPosition e = Some (mkVector3 3 0 0)).
  { unfold e, Part000.moveTo. rewrite Hfree. reflexivity. }
  split; [reflexivity |]. split; [exact Ht |].
  destruct (working_holds_position runFixArrival [pump] [e] 0 (1 / 60) e eq_refl)
    as [(Hm & Htp & _) _].
  by split.
Defined.

(** C5 (as amended).  In [part_000], [checkCollision] answers true exactly
    when some obstacle is closer than [engineerRadius] plus its collision
    radius or some other engineer with a loaded model is closer than twice
    [engineerRadius]; in [main.js] exactly when some obstacle is closer than
    [engineerRadius] plus its collision radius. *)
Theorem checkCollision_blocked_iff (Callback : Type) :
  blockedIff (Part000.checkCollision (Callback := Callback)) /\
  (forall objs p, MainJs.checkCollision objs p = true <-> nearObstacle objs p).
Proof.
  split.
  - intros objs engineers this p. unfold Part000.checkCollision.
    destruct (collidesWithEquipment objs p) eqn:Ho.
    + split; [| done]. intros _. left. by apply collidesWithEquipment_true.
    + destruct (Part000.collidesWithEngineers this 0 engineers p) eqn:He.
      * split; [| done]. intros _. right.
        apply collidesWithEngineers_true in He as (k & other & m & Hk & Hne & Hm & Hd).
        exists k, other, m. repeat split; try done. lra.
      * split; [done |]. intros [Hobs | (j & other & m & Hj & Hne & Hm & Hd)].
        -- apply collidesWithEquipment_true in Hobs. congruence.
        -- assert (Part000.collidesWithEngineers this 0 engineers p = true);
             [| congruence].
           apply collidesWithEngineers_true. exists j, other, m.
           repeat split; try done. lra.
  - intros objs p. unfold MainJs.checkCollision.
    etransitivity; [| apply collidesWithEquipment_true].
    by destruct (collidesWithEquipment objs p).
Qed.

(** C5, as stated, fails on [main.js]: with Sarah standing at her spawn
    point, the collision test of [main.js] finds that very point free for
    Mike. *)
Lemma checkCollision_blocked_iff_counterexample :
  ~ blockedIff (fun objs (_ : list (Engineer FixArrival)) (_ : nat) p =>
                  MainJs.checkCollision objs p).
Proof.
  intros H.
  destruct (H [] [mainjsMike; mainjsSarah] 0%nat (mkVector3 3 0 0)) as [_ Hblocked].
  assert (Hfalse : MainJs.checkCollision [] (mkVector3 3 0 0) = true); [| done].
  apply Hblocked. right.
  exists 1%nat, mainjsSarah, (mkModel (mkVector3 3 0 0) 0).
  repeat split; try done.
  unfold planarDistance, engineerRadius. simpl.
  apply Vector2_length_lt; lra.
Qed.

(** C7.  A blocked target [T] is replaced, once, in [moveTo], by the point
    the doubles compute for [T + (cos θ, 0, sin θ) * 3]: with every product
    and sum rounded to the nearest double and [Math.cos], [Math.sin]
    accurate to [2^-52], its planar distance from [T] is 3 up to rounding,
    within [10^-12] for a target whose coordinates are at most 1000, and
    exactly 3 only where nothing is rounded.  [update] does not compute a
    target: a frame leaves [targetPosition] as it is, or is the arrival
    frame that clears it.  In both scripts. *)
Theorem moveTo_deflection {Callback : Type}
    (invoke : Callback -> Engineer Callback -> Engineer Callback)
    (objs : list Obstacle) (engineers : list (Engineer Callback)) (this : nat)
    (fl : R -> R) (theta cosAngle sinAngle : R) (T : Vector3)
    (onArrival : option Callback) (e : Engineer Callback) :
  roundsToNearest fl ->
  Rabs (cosAngle - cos theta) <= / 2 ^ 52 ->
  Rabs (sinAngle - sin theta) <= / 2 ^ 52 ->
  Rabs (vx T) <= 1000 -> Rabs (vz T) <= 1000 ->
  let deflected := deflectRounded fl cosAngle sinAngle T in
  Rabs (planarDistance deflected T - 3) <= / 10 ^ 12 /\
  ((forall x, fl x = x) -> cosAngle = cos theta -> sinAngle = sin theta ->
   planarDistance deflected T = 3) /\
  (Part000.checkCollision objs engineers this T = true ->
   targetPosition
     (Part000.moveToRounded fl cosAngle sinAngle objs engineers this T onArrival e)
   = Some deflected) /\
  (forall dt,
     targetPosition (Part000.update invoke objs engineers this dt e).1 = targetPosition e \/
     exists t m, Part000.arrivesAt e t m /\
       (onArrivalCallback e = None ->
        targetPosition (Part000.update invoke objs engineers this dt e).1 = None)) /\
  (MainJs.checkCollision objs T = true ->
   targetPosition (MainJs.moveToRounded fl cosAngle sinAngle objs T e) = Some deflected) /\
  (forall dt,
     targetPosition (MainJs.update objs dt e) = targetPosition e \/
     targetPosition (MainJs.update objs dt e) = None).
Proof.
  intros Hfl Hc Hs Hx Hz deflected. split; [| split; [| split; [| split; [| split]]]].
  - by apply (deflectRounded_distance fl theta).
  - intros Hid -> ->. by apply deflectRounded_exact.
  - intros Hb. unfold Part000.moveToRounded. rewrite Hb. reflexivity.
  - intros dt.
    destruct (frame_cases e) as [Hw | [Hn | (t & m & [Hmv | Har])]].
    + left. rewrite (update_working invoke objs engineers this dt e Hw). simpl.
      by rewrite updateState_targetPosition.
    + left. rewrite (update_rest invoke objs engineers this dt e Hn). simpl.
      by rewrite updateState_targetPosition.
    + left. rewrite (update_walk invoke objs engineers this dt e t m Hmv). simpl.
      case_decide; rewrite ?setState_targetPosition; done.
    + right. exists t, m. split; [done |]. intros Hcb.
      rewrite (update_arrive invoke objs engineers this dt e t m Har), Hcb. simpl.
      rewrite updateState_targetPosition.
      case_match; rewrite ?setState_targetPosition; done.
  - intros Hb. unfold MainJs.moveToRounded. rewrite Hb. reflexivity.
  - intros dt.
    destruct (mainjs_frame_cases e)
      as [Hs' | [[Hs' Hw] | [(Hs' & Hw & Hn) | (t & m & [Hmv | Har])]]].
    + left. rewrite (mainjs_update_speaking objs dt e Hs'). simpl.
      case_decide; rewrite ?setState_targetPosition; done.
    + left. rewrite (mainjs_update_working objs dt e Hs' Hw). simpl.
      case_decide; rewrite ?setState_targetPosition; done.
    + left. rewrite (mainjs_update_rest objs dt e Hs' Hw Hn).
      by rewrite setState_targetPosition.
    + left. rewrite (mainjs_update_walk objs dt e t m Hmv). simpl.
      case_decide; rewrite ?setState_targetPosition; done.
    + right. rewrite (mainjs_update_arrive objs dt e t m Har).
      by rewrite setState_targetPosition.
Qed.

Lemma moveTo_deflection_witness :
  roundsToNearest roundAway /\
  Part000.checkCollision [pump] [mike; sarah] 0 (mkVector3 (-5) 0 5) = true /\
  MainJs.checkCollision [pump] (mkVector3 (-5) 0 5) = true /\
  exists target,
    targetPosition
      (Part000.moveToRounded roundAway 1 0 [pump] [mike; sarah] 0
         (mkVector3 (-5) 0 5) None mike) = Some target /\
    targetPosition
      (MainJs.moveToRounded roundAway 1 0 [pump] (mkVector3 (-5) 0 5) mainjsMike)
    = Some target /\
    Rabs (planarDistance target (mkVector3 (-5) 0 5) - 3) <= / 10 ^ 12.
Proof.
  assert (Hnear : planarDistance (mkVector3 (-5) 0 5) (obj_worldPosition pump)
                  < minDistance pump).
  { rewrite (minDistance_radius pump 1.5) by (done || lra).
    unfold planarDistance, engineerRadius. simpl. apply Vector2_length_lt; lra. }
  assert (Hb : Part000.checkCollision [pump] [mike; sarah] 0 (mkVector3 (-5) 0 5) = true).
  { unfold Part000.checkCollision. simpl. by rewrite decide_True. }
  assert (Hb' : MainJs.checkCollision [pump] (mkVector3 (-5) 0 5) = true).
  { unfold MainJs.checkCollision. simpl. by rewrite decide_True. }
  assert (Hc : Rabs (1 - cos 0) <= / 2 ^ 52).
  { rewrite cos_0, Rminus_diag, Rabs_R0.
    apply Rlt_le, Rinv_0_lt_compat, pow_lt. lra. }
  assert (Hs : Rabs (0 - sin 0) <= / 2 ^ 52).
  { rewrite sin_0, Rminus_diag, Rabs_R0.
    apply Rlt_le, Rinv_0_lt_compat, pow_lt. lra. }
  assert (Hx : Rabs (vx (mkVector3 (-5) 0 5)) <= 1000).
  { apply Rabs_le. simpl. lra. }
  assert (Hz : Rabs (vz (mkVector3 (-5) 0 5)) <= 1000).
  { apply Rabs_le. simpl. lra. }
  destruct (moveTo_deflection runFixArrival [pump] [mike; sarah] 0 roundAway 0 1 0
              (mkVector3 (-5) 0 5) None mike roundAway_rounds Hc Hs Hx Hz)
    as (Hd & _ & Hp & _ & _).
  destruct (moveTo_deflection runFixArrival [pump] [mike; sarah] 0 roundAway 0 1 0
              (mkVector3 (-5) 0 5) None mainjsMike roundAway_rounds Hc Hs Hx Hz)
    as (_ & _ & _ & _ & Hm & _).
  split; [exact roundAway_rounds |]. split; [exact Hb |]. split; [exact Hb' |].
  eexists. split; [exact (Hp Hb) |]. split; [exact (Hm Hb') |]. exact Hd.
Defined.

Lemma moveTo_deflection_counterexample :
  Part000.checkCollision [pump] [mike; sarah] 0 (mkVector3 (-5) 0 5) = true /\
  MainJs.checkCollision [pump] (mkVector3 (-5) 0 5) = true /\
  Binary64.planarDistance deflectedFromPump64 pumpGround64 = 0x1.7ffffffffffffp+1%float /\
  PrimFloat.eqb (Binary64.planarDistance deflectedFromPump64 pumpGround64) 3%float = false /\
  3 - / 10 ^ 12 <=
  planarDistance
    (mkVector3 (Binary64.toR (Binary64.vx deflectedFromPump64)) 0
               (Binary64.toR (Binary64.vz deflectedFromPump64)))
    (mkVector3 (-5) 0 5) < 3.
Proof.
  assert (Hnear : planarDistance (mkVector3 (-5) 0 5) (obj_worldPosition pump)
                  < minDistance pump).
  { rewrite (minDistance_radius pump 1.5) by (done || lra).
    unfold planarDistance, engineerRadius. simpl. apply Vector2_length_lt; lra. }
  split.
  { unfold Part000.checkCollision. simpl. by rewrite decide_True. }
  split.
  { unfold MainJs.checkCollision. simpl. by rewrite decide_True. }
  split; [vm_compute; reflexivity |].
  split; [vm_compute; reflexivity |].
  unfold planarDistance, Binary64.toR. cbn [vx vz].
  rewrite deflectedFromPump64_vx, deflectedFromPump64_vz.
  cbn [powerRZ].
  replace (Pos.to_nat 51) with 51%nat by reflexivity.
  replace (Pos.to_nat 50) with 50%nat by reflexivity.
  split; [apply Vector2_length_ge; lra | apply Vector2_length_lt; lra].
Qed.

(** C2.  In every frame that runs no arrival callback, and so in every
    movement step, an engineer who keeps the minimum separation
    [engineerRadius + collisionRadius] from an obstacle before the frame
    keeps it after the frame; in both scripts ([main.js] has no callbacks). *)
Theorem update_keeps_separation {Callback : Type}
    (invoke : Callback -> Engineer Callback -> Engineer Callback)
    (objs : list Obstacle) (engineers : list (Engineer Callback)) (this : nat)
    (dt : R) (e : Engineer Callback) (m : Model) (obj : Obstacle) :
  model e = Some m -> obj ∈ objs ->
  engineerRadius + collisionRadius obj
    <= planarDistance (model_position m) (obj_worldPosition obj) ->
  ((Part000.update invoke objs engineers this dt e).2 = [] ->
   exists m', model (Part000.update invoke objs engineers this dt e).1 = Some m' /\
     engineerRadius + collisionRadius obj
       <= planarDistance (model_position m') (obj_worldPosition obj)) /\
  (exists m', model (MainJs.update objs dt e) = Some m' /\
     engineerRadius + collisionRadius obj
       <= planarDistance (model_position m') (obj_worldPosition obj)).
Proof.
  intros Hm Hin Hsep. split.
  - intros Hquiet.
    destruct (update_model_cases invoke objs engineers this dt e Hquiet)
      as [-> | (t & m0 & Hmv & ->)]; [by exists m |].
    eexists. split; [done |]. simpl.
    assert (m0 = m) as -> by (destruct Hmv as (_ & Hm0 & _); congruence).
    destruct (stepPosition_cases objs engineers this (model_position m)
                (normalize (Part000.directionTo t (model_position m)))
                (Math_min (speed e)
                   (Vector3_length (Part000.directionTo t (model_position m)))))
      as [-> | Hfree]; [done |].
    by apply (checkCollision_free_equipment objs engineers this _ Hfree obj Hin).
  - destruct (mainjs_update_model_cases objs dt e) as [-> | (t & m0 & Hmv & ->)];
      [by exists m |].
    eexists. split; [done |]. simpl.
    assert (m0 = m) as -> by (destruct Hmv as (_ & _ & _ & Hm0 & _); congruence).
    destruct (mainjs_stepPosition_cases objs (model_position m)
                (normalize (MainJs.directionTo t (model_position m)))
                (Math_min (speed e)
                   (Vector3_length (MainJs.directionTo t (model_position m)))))
      as [-> | Hfree]; [done |].
    by apply (mainjs_checkCollision_free objs _ Hfree obj Hin).
Qed.

Lemma update_keeps_separation_witness :
  let e := mikeAtPump (mkVector3 (-3) 0 5) in
  let m := mkModel (mkVector3 (-7) 0 5) 0 in
  model e = Some m /\
  engineerRadius + collisionRadius pump
    <= planarDistance (model_position m) (obj_worldPosition pump) /\
  (Part000.update runFixArrival [pump] [e] 0 (1 / 60) e).2 = [] /\
  (exists m', model (Part000.update runFixArrival [pump] [e] 0 (1 / 60) e).1 = Some m' /\
     engineerRadius + collisionRadius pump
       <= planarDistance (model_position m') (obj_worldPosition pump)) /\
  (exists m', model (MainJs.update [pump] (1 / 60) e) = Some m' /\
     engineerRadius + collisionRadius pump
       <= planarDistance (model_position m') (obj_worldPosition pump)).
Proof.
  intros e m.
  assert (Hsep : engineerRadius + collisionRadius pump
                 <= planarDistance (model_position m) (obj_worldPosition pump)).
  { change (engineerRadius + collisionRadius pump) with (minDistance pump).
    rewrite (minDistance_radius pump 1.5) by (done || lra).
    unfold engineerRadius, planarDistance. apply Vector2_length_ge. simpl. lra. }
  assert (Hmv : Part000.movesTowards e (mkVector3 (-3) 0 5) m).
  { apply (movesTowards_far e _ m 1); try done;
      [lra | unfold Part000.arrivalThreshold; lra | simpl; lra]. }
  assert (Hquiet : (Part000.update runFixArrival [pump] [e] 0 (1 / 60) e).2 = []).
  { by rewrite (update_walk runFixArrival [pump] [e] 0 (1 / 60) e _ m Hmv). }
  destruct (update_keeps_separation runFixArrival [pump] [e] 0 (1 / 60) e m pump
              eq_refl ltac:(by left) Hsep) as [Hp Hj].
  split; [reflexivity |]. split; [exact Hsep |]. split; [exact Hquiet |].
  split; [exact (Hp Hquiet) | exact Hj].
Defined.



(** C4 (as amended).  In a walking frame of [part_000] the engineer goes to
    the direct candidate (pinned to the ground) when it is free, else to the
    first free one of the two candidates a quarter turn left and right of the
    step, of the same length, else stays where it is: the new position is
    [stepAround] of the specification.  In a walking frame of [main.js] the
    engineer goes to the direct candidate when it is free and stays where it
    is otherwise; no sidestep is tried. *)
Theorem update_steps_around {Callback : Type}
    (invoke : Callback -> Engineer Callback -> Engineer Callback)
    (objs : list Obstacle) (engineers : list (Engineer Callback)) (this : nat)
    (dt : R) (e : Engineer Callback) (target : Vector3) (m : Model) :
  let pos := model_position m in
  let direction := normalize (setY (subVectors target pos) 0) in
  let moveDistance := Math_min (speed e) (planarDistance target pos) in
  let delta := multiplyScalar direction moveDistance in
  let blocked := Part000.checkCollision objs engineers this in
  (Part000.movesTowards e target m ->
   exists m', model (Part000.update invoke objs engineers this dt e).1 = Some m' /\
     sameGround (model_position m') (stepAround blocked pos delta) /\
     (vy pos = 0 -> model_position m' = stepAround blocked pos delta) /\
     (blocked (vadd pos delta) = true ->
      blocked (vadd pos (rotateXZ (PI / 2) delta)) = true ->
      blocked (vadd pos (rotateXZ (- (PI / 2)) delta)) = true ->
      model_position m' = pos)) /\
  (MainJs.movesTowards e target m ->
   exists m', model (MainJs.update objs dt e) = Some m' /\
     model_position m' =
     if MainJs.checkCollision objs (vadd pos delta) then pos else setY (vadd pos delta) 0).
Proof.
  intros pos direction moveDistance delta blocked.
  assert (Hy : vy direction = 0) by apply normalize_direction_vy.
  split.
  - intros Hmv.
    rewrite (update_walk invoke objs engineers this dt e target m Hmv). simpl.
    eexists. split; [reflexivity |]. simpl.
    unfold Part000.directionTo. rewrite direction_length.
    fold pos. fold direction. fold moveDistance.
    destruct (stepPosition_stepAround objs engineers this pos direction moveDistance Hy)
      as [Hg He].
    split; [exact Hg |]. split; [exact He |].
    intros H0 H1 H2. apply stepPosition_blocked.
    + unfold Part000.directCandidate. by rewrite checkCollision_setY.
    + by rewrite (perpendicular1_rotate pos direction moveDistance Hy).
    + by rewrite (perpendicular2_rotate pos direction moveDistance Hy).
  - intros Hmv.
    rewrite (mainjs_update_walk objs dt e target m Hmv). simpl.
    eexists. split; [reflexivity |]. simpl.
    unfold MainJs.directionTo. rewrite direction_length.
    fold pos. fold direction. fold moveDistance.
    unfold MainJs.stepPosition, MainJs.directCandidate, MainJs.checkCollision.
    rewrite collidesWithEquipment_setY.
    change (addScaledVector pos direction moveDistance) with (vadd pos delta).
    by destruct (collidesWithEquipment objs (vadd pos delta)).
Qed.

Lemma update_steps_around_witness :
  let e := mikeAtPump (mkVector3 (-3) 0 5) in
  let pos := mkVector3 (-7) 0 5 in
  let delta := mkVector3 0.05 0 0 in
  Part000.movesTowards e (mkVector3 (-3) 0 5) (mkModel pos 0) /\
  exists m',
    model (Part000.update runFixArrival [pump] [e] 0 (1 / 60) e).1 = Some m' /\
    model_position m' = stepAround (Part000.checkCollision [pump] [e] 0) pos delta /\
    model_position m' = vadd pos (rotateXZ (PI / 2) delta).
Proof.
  intros e pos delta.
  assert (Hmv : Part000.movesTowards e (mkVector3 (-3) 0 5) (mkModel pos 0)).
  { apply (movesTowards_far e _ (mkModel pos 0) 1); try done;
      [lra | unfold Part000.arrivalThreshold; lra | simpl; lra]. }
  destruct (update_steps_around runFixArrival [pump] [e] 0 (1 / 60) e
              (mkVector3 (-3) 0 5) (mkModel pos 0)) as [Hp _].
  destruct (Hp Hmv) as (m' & Hm' & _ & Heq & _).
  specialize (Heq eq_refl).
  assert (Hdelta :
    multiplyScalar
      (normalize (setY (subVectors (mkVector3 (-3) 0 5) (model_position (mkModel pos 0))) 0))
      (Math_min (speed e) (planarDistance (mkVector3 (-3) 0 5) (model_position (mkModel pos 0))))
    = delta) by exact pump_step_delta.
  rewrite Hdelta in Heq. cbn [model_position] in Heq.
  split; [exact Hmv |]. exists m'. split; [exact Hm' |]. split; [exact Heq |].
  rewrite Heq. unfold stepAround, Part000.checkCollision.
  assert (H0 : collidesWithEquipment [pump] (vadd pos delta) = true).
  { simpl collidesWithEquipment. rewrite decide_True; [done | apply pump_direct_near]. }
  assert (H1 : collidesWithEquipment [pump] (vadd pos (rotateXZ (PI / 2) delta)) = false).
  { simpl collidesWithEquipment. rewrite decide_False; [done |].
    apply Rle_not_lt, pump_sidestep_far. }
  rewrite H0, H1. reflexivity.
Defined.

(** C4, as stated, fails on [main.js]: walking from the left of the pump
    towards its right, the direct candidate is blocked and the first
    sidestep is free, yet [update] of [main.js] leaves the engineer where it
    is, where [stepAround] takes the sidestep. *)
Lemma update_steps_around_counterexample :
  let e := mainjsMikeAtPump (mkVector3 (-3) 0 5) in
  let pos := mkVector3 (-7) 0 5 in
  let delta := multiplyScalar (normalize (setY (subVectors (mkVector3 (-3) 0 5) pos) 0))
                 (Math_min (speed e) (planarDistance (mkVector3 (-3) 0 5) pos)) in
  MainJs.movesTowards e (mkVector3 (-3) 0 5) (mkModel pos 0) /\
  MainJs.checkCollision [pump] (vadd pos delta) = true /\
  MainJs.checkCollision [pump] (vadd pos (rotateXZ (PI / 2) delta)) = false /\
  model_position <$> model (MainJs.update [pump] (1 / 60) e) = Some pos /\
  ~ sameGround pos (stepAround (MainJs.checkCollision [pump]) pos delta).
Proof.
  intros e pos delta.
  assert (Hmv : MainJs.movesTowards e (mkVector3 (-3) 0 5) (mkModel pos 0)).
  { apply (mainjs_movesTowards_far e _ (mkModel pos 0) 1); try done;
      [lra | unfold MainJs.arrivalThreshold; lra | simpl; lra]. }
  assert (Hdelta : delta = mkVector3 0.05 0 0) by apply pump_step_delta.
  assert (H0 : MainJs.checkCollision [pump] (vadd pos delta) = true).
  { rewrite Hdelta. apply mainjs_blocked_single, pump_direct_near. }
  assert (H1 : MainJs.checkCollision [pump] (vadd pos (rotateXZ (PI / 2) delta)) = false).
  { rewrite Hdelta. apply mainjs_free_single, pump_sidestep_far. }
  split; [exact Hmv |]. split; [exact H0 |]. split; [exact H1 |]. split.
  - rewrite (mainjs_update_walk [pump] (1 / 60) e _ _ Hmv). simpl.
    unfold MainJs.stepPosition, MainJs.directCandidate, MainJs.checkCollision.
    rewrite collidesWithEquipment_setY.
    unfold MainJs.directionTo. rewrite direction_length.
    match goal with
    | |- context [collidesWithEquipment ?l ?p] =>
      assert (Hc : collidesWithEquipment l p = true)
    end.
    { unfold MainJs.checkCollision in H0.
      destruct (collidesWithEquipment [pump] (vadd pos delta)) eqn:E; [exact E | done]. }
    by rewrite Hc.
  - unfold stepAround. rewrite H0, H1. simpl negb. cbv iota.
    rewrite Hdelta. unfold sameGround, rotateXZ, vadd, pos. simpl.
    rewrite cos_PI2, sin_PI2. intros [_ Hz]. lra.
Qed.



(** C3 (as amended).  In [part_000], in a frame that finds an engineer with
    a loaded model, not working, within 0.5 of its target: the target is
    cleared, then the pending callback, if any, is invoked, once, and
    cleared (so the target after the frame is the one the callback leaves,
    none unless the callback itself asks for a move); no later frame invokes
    a callback.  While the engineer works the arrival is deferred: the
    target and the callback are kept and nothing is invoked.  In [main.js]
    an engineer that neither speaks nor works, within 0.2 of its target,
    loses the target; there is no callback. *)
Theorem arrival_fires_once {Callback : Type}
    (invoke : Callback -> Engineer Callback -> Engineer Callback)
    (objs : list Obstacle) (engineers : list (Engineer Callback)) (this : nat)
    (dt : R) (e : Engineer Callback) (target : Vector3) (m : Model) :
  (Part000.arrivesAt e target m ->
   (Part000.update invoke objs engineers this dt e).2
   = match onArrivalCallback e with Some cb => [cb] | None => [] end /\
   targetPosition (Part000.update invoke objs engineers this dt e).1
   = match onArrivalCallback e with
     | Some cb => targetPosition (invoke cb (set_targetPosition None (updateMixer dt e)))
     | None => None
     end /\
   onArrivalCallback (Part000.update invoke objs engineers this dt e).1 = None /\
   forall frames,
     (simulate invoke frames (Part000.update invoke objs engineers this dt e).1).2 = []) /\
  (isWorking e = true ->
   (Part000.update invoke objs engineers this dt e).2 = [] /\
   targetPosition (Part000.update invoke objs engineers this dt e).1 = targetPosition e /\
   onArrivalCallback (Part000.update invoke objs engineers this dt e).1
   = onArrivalCallback e) /\
  (MainJs.arrivesAt e target m -> targetPosition (MainJs.update objs dt e) = None).
Proof.
  split; [| split].
  - intros Har.
    assert (Hcb : onArrivalCallback (Part000.update invoke objs engineers this dt e).1
                  = None).
    { rewrite (update_arrive invoke objs engineers this dt e target m Har).
      destruct (onArrivalCallback e) eqn:Hpending; simpl;
        rewrite updateState_onArrivalCallback;
        case_match; rewrite ?setState_onArrivalCallback; done. }
    split; [| split; [| split]].
    + rewrite (update_arrive invoke objs engineers this dt e target m Har).
      by destruct (onArrivalCallback e).
    + rewrite (update_arrive invoke objs engineers this dt e target m Har).
      destruct (onArrivalCallback e); simpl; rewrite updateState_targetPosition;
        case_match; rewrite ?setState_targetPosition; done.
    + exact Hcb.
    + intros frames. by apply simulate_quiet.
  - intros Hw. rewrite (update_working invoke objs engineers this dt e Hw). simpl.
    by rewrite updateState_targetPosition, updateState_onArrivalCallback.
  - intros Har. rewrite (mainjs_update_arrive objs dt e target m Har).
    by rewrite setState_targetPosition.
Qed.

Lemma arrival_fires_once_witness :
  Part000.arrivesAt mikeArriving (mkVector3 (-7) 0 5) (mkModel (mkVector3 (-7.25) 0 5) 0) /\
  (Part000.update runFixArrival [pump] [mikeArriving] 0 (1 / 60) mikeArriving).2
  = [fixArrival "pump"] /\
  targetPosition (Part000.update runFixArrival [pump] [mikeArriving] 0 (1 / 60)
                    mikeArriving).1 = None /\
  isWorking (Part000.update runFixArrival [pump] [mikeArriving] 0 (1 / 60)
               mikeArriving).1 = true /\
  (simulate runFixArrival
     [mkFrame [pump] [mikeArriving] 0 (1 / 60); mkFrame [pump] [mikeArriving] 0 (1 / 60)]
     (Part000.update runFixArrival [pump] [mikeArriving] 0 (1 / 60) mikeArriving).1).2
  = [].
Proof.
  assert (Har : Part000.arrivesAt mikeArriving (mkVector3 (-7) 0 5)
                  (mkModel (mkVector3 (-7.25) 0 5) 0)).
  { apply arrivesAt_near; try done. unfold Part000.arrivalThreshold. simpl. lra. }
  destruct (arrival_fires_once runFixArrival [pump] [mikeArriving] 0 (1 / 60)
              mikeArriving (mkVector3 (-7) 0 5) (mkModel (mkVector3 (-7.25) 0 5) 0))
    as [Hp _].
  destruct (Hp Har) as (Htrace & Htarget & _ & Hlater).
  split; [exact Har |]. split; [exact Htrace |]. split; [exact Htarget |].
  split; [| apply Hlater].
  rewrite (update_arrive runFixArrival [pump] [mikeArriving] 0 (1 / 60)
             mikeArriving _ _ Har).
  simpl. by rewrite updateState_isWorking.
Defined.

(** C3, as stated, fails in both scripts.  In [part_000] an engineer who is
    working within 0.5 of its target keeps the target, and the pending
    callback is not invoked.  In [main.js] an engineer at 0.3 of its target
    keeps the target and goes on walking. *)
Lemma arrival_fires_once_counterexample :
  (let e := work mikeArriving in
   let pos := mkVector3 (-7.25) 0 5 in
   model e = Some (mkModel pos 0) /\
   targetPosition e = Some (mkVector3 (-7) 0 5) /\
   planarDistance (mkVector3 (-7) 0 5) pos <= 0.5 /\
   onArrivalCallback e = Some (fixArrival "pump") /\
   (Part000.update runFixArrival [pump] [e] 0 (1 / 60) e).2 = [] /\
   targetPosition (Part000.update runFixArrival [pump] [e] 0 (1 / 60) e).1
   = Some (mkVector3 (-7) 0 5)) /\
  (model mainjsMikeNear = Some (mkModel (mkVector3 (-7.3) 0 5) 0) /\
   planarDistance (mkVector3 (-7) 0 5) (mkVector3 (-7.3) 0 5) <= 0.5 /\
   targetPosition (MainJs.update [pump] (1 / 60) mainjsMikeNear)
   = Some (mkVector3 (-7) 0 5) /\
   currentState (MainJs.update [pump] (1 / 60) mainjsMikeNear) = "walking").
Proof.
  split.
  - intros e pos. split; [reflexivity |]. split; [reflexivity |]. split.
    { unfold planarDistance. apply Vector2_length_le; simpl; lra. }
    split; [reflexivity |].
    rewrite (update_working runFixArrival [pump] [e] 0 (1 / 60) e eq_refl). simpl.
    split; [reflexivity |]. by rewrite updateState_targetPosition.
  - split; [reflexivity |]. split.
    { unfold planarDistance. apply Vector2_length_le; simpl; lra. }
    assert (Hmv : MainJs.movesTowards mainjsMikeNear (mkVector3 (-7) 0 5)
                    (mkModel (mkVector3 (-7.3) 0 5) 0)).
    { apply (mainjs_movesTowards_far mainjsMikeNear _
               (mkModel (mkVector3 (-7.3) 0 5) 0) 0.25); try done;
        [lra | unfold MainJs.arrivalThreshold; lra | simpl; lra]. }
    destruct (mainjs_walk_state [pump] (1 / 60) mainjsMikeNear _ _ Hmv) as [Ht Hs].
    { eexists. reflexivity. }
    split; [| exact Hs]. rewrite Ht. reflexivity.
Qed.
(** C1 (as amended).  In [part_000], with [e'] the engineer after the frame
    and provided the clip of the state in question is loaded: the state is
    working if [isWorking] is set (as it is after the movement phase and its
    callback); else walking if the frame began with a loaded model, no work
    and a target farther than 0.5; else talking if [isSpeaking] is set and no
    target is left; else idle if no target is left.  In [main.js] the order
    is talking, working, walking, idle: a speaking engineer is talking even
    when [isWorking] is set or a target is pending. *)
Theorem update_state_precedence {Callback : Type}
    (invoke : Callback -> Engineer Callback -> Engineer Callback)
    (objs : list Obstacle) (engineers : list (Engineer Callback)) (this : nat)
    (dt : R) (e : Engineer Callback) :
  let e' := (Part000.update invoke objs engineers this dt e).1 in
  let e'' := MainJs.update objs dt e in
  ((isWorking e' = true -> is_Some (clipOf e' "working") ->
    currentState e' = "working") /\
   (forall target m, Part000.movesTowards e target m ->
    is_Some (clipOf e "walking") -> currentState e' = "walking") /\
   (isWorking e' = false -> isSpeaking e' = true -> targetPosition e' = None ->
    is_Some (clipOf e' "talking") -> currentState e' = "talking") /\
   (isWorking e' = false -> isSpeaking e' = false -> targetPosition e' = None ->
    is_Some (clipOf e' "idle") -> currentState e' = "idle")) /\
  ((isSpeaking e = true -> is_Some (clipOf e "talking") ->
    currentState e'' = "talking") /\
   (isSpeaking e = false -> isWorking e = true -> is_Some (clipOf e "working") ->
    currentState e'' = "working") /\
   (forall target m, MainJs.movesTowards e target m ->
    is_Some (clipOf e "walking") -> currentState e'' = "walking") /\
   (isSpeaking e = false -> isWorking e = false ->
    (forall target m, ~ MainJs.movesTowards e target m) ->
    is_Some (clipOf e "idle") -> currentState e'' = "idle")).
Proof.
  intros e' e''. split.
  - assert (He' : e' = Part000.updateState
             (Part000.updateMovement invoke objs engineers this (updateMixer dt e)).1).
    { unfold e'. by rewrite update_split. }
    split; [| split; [| split]].
    + rewrite He', updateState_isWorking, clipOf_working. intros Hw Hc.
      apply updateState_working; [done |]. exact (proj1 (updateState_clips _ _) Hc).
    + intros target m Hmv Hc. rewrite clipOf_walking in Hc.
      exact (walk_state invoke objs engineers this dt e target m Hmv Hc).
    + rewrite He', updateState_isWorking, updateState_isSpeaking,
        updateState_targetPosition.
      rewrite clipOf_talking. intros Hw Hs Ht Hc.
      apply updateState_talking; try done. exact (proj1 (updateState_clips _ _) Hc).
    + rewrite He', updateState_isWorking, updateState_isSpeaking,
        updateState_targetPosition.
      rewrite clipOf_idle. intros Hw Hs Ht Hc.
      apply updateState_idle; try done. exact (proj1 (updateState_clips _ _) Hc).
  - unfold e''. rewrite clipOf_talking, clipOf_working, clipOf_walking, clipOf_idle.
    split; [| split; [| split]].
    + intros Hs Hc. rewrite (mainjs_update_speaking objs dt e Hs). simpl.
      case_decide; [done |]. by apply (setState_loaded _ "talking").
    + intros Hs Hw Hc. rewrite (mainjs_update_working objs dt e Hs Hw). simpl.
      case_decide; [done |]. by apply (setState_loaded _ "working").
    + intros target m Hmv Hc.
      by destruct (mainjs_walk_state objs dt e target m Hmv Hc).
    + intros Hs Hw Hno Hc.
      destruct (mainjs_frame_cases e)
        as [Hs' | [[_ Hw'] | [(_ & _ & Hn) | (t & m & [Hmv | Har])]]];
        try congruence.
      * rewrite (mainjs_update_rest objs dt e Hs Hw Hn).
        by apply (setState_loaded _ "standing").
      * by destruct (Hno t m).
      * rewrite (mainjs_update_arrive objs dt e t m Har).
        by apply (setState_loaded _ "standing").
Qed.

Lemma update_state_precedence_witness :
  let e' := (Part000.update runFixArrival [pump] [mikeArriving] 0 (1 / 60) mikeArriving).1 in
  isWorking e' = true /\ is_Some (clipOf e' "working") /\ currentState e' = "working".
Proof.
  intros e'.
  assert (Har : Part000.arrivesAt mikeArriving (mkVector3 (-7) 0 5)
                  (mkModel (mkVector3 (-7.25) 0 5) 0)).
  { apply arrivesAt_near; try done. unfold Part000.arrivalThreshold. simpl. lra. }
  assert (He' : e' = Part000.updateState
     (set_onArrivalCallback None
        (runFixArrival (fixArrival "pump")
           (set_targetPosition None (updateMixer (1 / 60) mikeArriving))))).
  { unfold e'.
    by rewrite (update_arrive runFixArrival [pump] [mikeArriving] 0 (1 / 60)
                  mikeArriving _ _ Har). }
  assert (Hw : isWorking e' = true).
  { rewrite He'. by rewrite updateState_isWorking. }
  assert (Hc : is_Some (clipOf e' "working")).
  { rewrite He', clipOf_working. apply updateState_clips. eexists. reflexivity. }
  destruct (update_state_precedence runFixArrival [pump] [mikeArriving] 0 (1 / 60)
              mikeArriving) as [(Hworking & _) _].
  split; [exact Hw |]. split; [exact Hc |]. exact (Hworking Hw Hc).
Defined.

(** C1, as stated, fails in both scripts.  In [part_000] an engineer asked
    to work before its working clip is loaded stays idle.  In [main.js] an
    engineer who speaks while working, with every clip loaded, is talking,
    not working. *)
Lemma update_state_precedence_counterexample :
  (isWorking mikeWorkingEarly = true /\
   currentState
     (Part000.update runFixArrival [pump] [mikeWorkingEarly] 0 (1 / 60) mikeWorkingEarly).1
   = "idle") /\
  (isWorking mainjsMikeBusy = true /\
   is_Some (clipOf mainjsMikeBusy "working") /\
   currentState (MainJs.update [pump] (1 / 60) mainjsMikeBusy) = "talking").
Proof.
  split.
  - split; [reflexivity |].
    rewrite (working_missing_clip_state runFixArrival [pump] [mikeWorkingEarly] 0
               (1 / 60) mikeWorkingEarly); reflexivity.
  - split; [reflexivity |]. split; [eexists; reflexivity |].
    apply mainjs_speaking_state; [reflexivity |]. eexists. reflexivity.
Qed.

(** * Further properties of the scripts *)

(** ** The frame loop of [part_000] *)

Section Animate.
Context {Callback : Type}.
Variable invoke : Callback -> Engineer Callback -> Engineer Callback.
Implicit Types (e : Engineer Callback) (engineers : list (Engineer Callback)).

Lemma collidesWithEngineers_false (this : nat) engineers (p : Vector3) :
  Part000.collidesWithEngineers this 0 engineers p = false ->
  forall (k : nat) other m,
    engineers !! k = Some other -> k <> this -> model other = Some m ->
    engineerRadius * 2 <= planarDistance p (model_position m).
Proof.
  intros Hfree k other m Hk Hne Hm. apply Rnot_lt_le. intros Hlt.
  assert (Part000.collidesWithEngineers this 0 engineers p = true); [| congruence].
  apply collidesWithEngineers_true. by exists k, other, m.
Qed.

Lemma checkCollision_free_engineers objs engineers (this : nat) (p : Vector3) :
  Part000.checkCollision objs engineers this p = false ->
  forall (k : nat) other m,
    engineers !! k = Some other -> k <> this -> model other = Some m ->
    engineerRadius * 2 <= planarDistance p (model_position m).
Proof.
  unfold Part000.checkCollision. intros H.
  apply collidesWithEngineers_false.
  destruct (collidesWithEquipment objs p); [done |].
  by destruct (Part000.collidesWithEngineers this 0 engineers p).
Qed.

(** With callbacks that leave the pose alone, a frame keeps the model or
    takes a walking step. *)
Lemma update_pose_cases objs engineers (this : nat) (dt : R) e :
  posePreserving invoke ->
  model (Part000.update invoke objs engineers this dt e).1 = model e \/
  exists target m, Part000.movesTowards e target m /\
    model (Part000.update invoke objs engineers this dt e).1 =
    Some (mkModel
      (Part000.stepPosition objs engineers this (model_position m)
         (normalize (Part000.directionTo target (model_position m)))
         (Math_min (speed e) (Vector3_length (Part000.directionTo target (model_position m)))))
      (Part000.turnTowards (normalize (Part000.directionTo target (model_position m)))
         (model_rotation_y m))).
Proof.
  intros Hpose.
  destruct (frame_cases e) as [Hw | [Hn | (t & m & [Hmv | Har])]].
  - left. rewrite (update_working invoke objs engineers this dt e Hw). simpl.
    by rewrite updateState_model.
  - left. rewrite (update_rest invoke objs engineers this dt e Hn). simpl.
    by rewrite updateState_model.
  - right. exists t, m. split; [done |].
    by rewrite (update_walk invoke objs engineers this dt e t m Hmv).
  - left. rewrite (update_arrive invoke objs engineers this dt e t m Har).
    destruct (onArrivalCallback e) as [cb |]; simpl; rewrite updateState_model.
    + case_match; rewrite ?setState_model; simpl; by rewrite Hpose.
    + case_match; rewrite ?setState_model; done.
Qed.

(** The position after a frame is the old one or a position the collision
    test found free. *)
Lemma update_position_cases objs engineers (this : nat) (dt : R) e :
  posePreserving invoke ->
  (model_position <$> model (Part000.update invoke objs engineers this dt e).1)
  = (model_position <$> model e) \/
  exists m', model (Part000.update invoke objs engineers this dt e).1 = Some m' /\
    Part000.checkCollision objs engineers this (model_position m') = false.
Proof.
  intros Hpose.
  destruct (update_pose_cases objs engineers this dt e Hpose)
    as [-> | (t & m & Hmv & ->)]; [by left |].
  destruct Hmv as (_ & Hm & _).
  destruct (stepPosition_cases objs engineers this (model_position m)
              (normalize (Part000.directionTo t (model_position m)))
              (Math_min (speed e)
                 (Vector3_length (Part000.directionTo t (model_position m)))))
    as [Hstay | Hfree].
  - left. rewrite Hm. simpl. by rewrite Hstay.
  - right. eexists. split; [reflexivity |]. exact Hfree.
Qed.

Lemma updateAt_collisionObjects (dt : R) acc (i : nat) :
  Part000.collisionObjects (Part000.updateAt invoke dt acc i).1
  = Part000.collisionObjects acc.1.
Proof.
  unfold Part000.updateAt.
  destruct (Part000.engineers acc.1 !! i) as [e |]; [| done].
  by destruct (Part000.update invoke _ _ i dt e).
Qed.

Lemma updateAt_engineers (dt : R) acc (i : nat) e :
  Part000.engineers acc.1 !! i = Some e ->
  Part000.engineers (Part000.updateAt invoke dt acc i).1
  = <[i := (Part000.update invoke (Part000.collisionObjects acc.1)
              (Part000.engineers acc.1) i dt e).1]> (Part000.engineers acc.1).
Proof.
  intros Hi. unfold Part000.updateAt. rewrite Hi.
  by destruct (Part000.update invoke _ _ i dt e).
Qed.

Lemma updateAt_apart (dt : R) acc (i : nat) :
  posePreserving invoke ->
  apart (Part000.engineers acc.1) ->
  apart (Part000.engineers (Part000.updateAt invoke dt acc i).1).
Proof.
  intros Hpose Hap.
  destruct (Part000.engineers acc.1 !! i) as [e |] eqn:Hi; last first.
  { unfold Part000.updateAt. by rewrite Hi. }
  rewrite (updateAt_engineers dt acc i e Hi).
  set (objs := Part000.collisionObjects acc.1).
  set (engs := Part000.engineers acc.1) in *.
  set (e' := (Part000.update invoke objs engs i dt e).1).
  assert (Hlen : (i < length engs)%nat) by (by eapply lookup_lt_Some).
  assert (Hnew : forall (k : nat) other m m',
    k <> i -> engs !! k = Some other -> model other = Some m -> model e' = Some m' ->
    engineerRadius * 2 <= planarDistance (model_position m') (model_position m)).
  { intros k other m m' Hk Hother Hm Hm'.
    destruct (update_position_cases objs engs i dt e Hpose) as [Hsame | (m0 & Hm0 & Hfree)].
    - fold e' in Hsame. rewrite Hm' in Hsame. simpl in Hsame.
      destruct (model e) as [me |] eqn:Hme; [| done].
      simpl in Hsame. injection Hsame as Hpos. rewrite Hpos.
      apply (Hap i k e other me m); done.
    - fold e' in Hm0. rewrite Hm' in Hm0. injection Hm0 as <-.
      by apply (checkCollision_free_engineers objs engs i _ Hfree k other m). }
  intros a b ea eb ma mb Hab Ha Hb Hma Hmb.
  destruct (decide (a = i)) as [-> | Hai]; destruct (decide (b = i)) as [-> | Hbi].
  - done.
  - rewrite list_lookup_insert_eq in Ha by done. injection Ha as <-.
    rewrite list_lookup_insert_ne in Hb by done.
    by apply (Hnew b eb mb ma).
  - rewrite list_lookup_insert_eq in Hb by done. injection Hb as <-.
    rewrite list_lookup_insert_ne in Ha by done.
    rewrite planarDistance_sym. by apply (Hnew a ea ma mb).
  - rewrite list_lookup_insert_ne in Ha by done.
    rewrite list_lookup_insert_ne in Hb by done.
    by apply (Hap a b ea eb ma mb).
Qed.

Lemma updateAt_clearOfEquipment (dt : R) acc (i : nat) :
  posePreserving invoke ->
  clearOfEquipment (Part000.collisionObjects acc.1) (Part000.engineers acc.1) ->
  clearOfEquipment (Part000.collisionObjects (Part000.updateAt invoke dt acc i).1)
                   (Part000.engineers (Part000.updateAt invoke dt acc i).1).
Proof.
  intros Hpose Hclear. rewrite updateAt_collisionObjects.
  destruct (Part000.engineers acc.1 !! i) as [e |] eqn:Hi; last first.
  { unfold Part000.updateAt. by rewrite Hi. }
  rewrite (updateAt_engineers dt acc i e Hi).
  set (objs := Part000.collisionObjects acc.1) in *.
  set (engs := Part000.engineers acc.1) in *.
  assert (Hlen : (i < length engs)%nat) by (by eapply lookup_lt_Some).
  intros a ea ma obj Ha Hma Hobj.
  destruct (decide (a = i)) as [-> | Hai].
  - rewrite list_lookup_insert_eq in Ha by done. injection Ha as <-.
    destruct (update_position_cases objs engs i dt e Hpose) as [Hsame | (m0 & Hm0 & Hfree)].
    + rewrite Hma in Hsame. simpl in Hsame.
      destruct (model e) as [me |] eqn:Hme; [| done].
      simpl in Hsame. injection Hsame as Hpos. rewrite Hpos.
      by apply (Hclear i e me obj).
    + rewrite Hma in Hm0. injection Hm0 as <-.
      by apply (checkCollision_free_equipment objs engs i _ Hfree obj).
  - rewrite list_lookup_insert_ne in Ha by done.
    by apply (Hclear a ea ma obj).
Qed.

Lemma foldl_updateAt_invariant (dt : R)
    (P : Part000.Scene (Callback := Callback) -> Prop) :
  (forall acc i, P acc.1 -> P (Part000.updateAt invoke dt acc i).1) ->
  forall (l : list nat) acc, P acc.1 -> P (foldl (Part000.updateAt invoke dt) acc l).1.
Proof.
  intros Hstep l. induction l as [| i l IH]; intros acc Hacc; simpl; [done |].
  apply IH. by apply Hstep.
Qed.

Lemma apart_two (a b : Engineer Callback) (ma mb : Model) :
  model a = Some ma -> model b = Some mb ->
  engineerRadius * 2 <= planarDistance (model_position ma) (model_position mb) ->
  apart [a; b].
Proof.
  intros Ha Hb Hd i j ei ej mi mj Hij Hi Hj Hmi Hmj.
  destruct i as [| [| i]], j as [| [| j]]; simpl in Hi, Hj; try done;
    injection Hi as <-; injection Hj as <-;
    rewrite Ha in *; rewrite Hb in *;
    injection Hmi as <-; injection Hmj as <-; [done |].
  by rewrite planarDistance_sym.
Qed.

Lemma clear_two_one (a b : Engineer Callback) (ma mb : Model) (obj : Obstacle) :
  model a = Some ma -> model b = Some mb ->
  minDistance obj <= planarDistance (model_position ma) (obj_worldPosition obj) ->
  minDistance obj <= planarDistance (model_position mb) (obj_worldPosition obj) ->
  clearOfEquipment [obj] [a; b].
Proof.
  intros Ha Hb Hda Hdb i e m o Hi Hm Ho.
  apply list_elem_of_singleton in Ho as ->.
  destruct i as [| [| i]]; simpl in Hi; try done; injection Hi as <-.
  - rewrite Ha in Hm. by injection Hm as <-.
  - rewrite Hb in Hm. by injection Hm as <-.
Qed.

End Animate.

Lemma runFixArrival_posePreserving : posePreserving runFixArrival.
Proof. intros [equipmentName] e. reflexivity. Qed.

Lemma mike_sarah_apart : apart [mike; sarah].
Proof.
  apply (apart_two mike sarah (mkModel (mkVector3 (-3) 0 0) 0)
           (mkModel (mkVector3 3 0 0) 0)); [reflexivity | reflexivity |].
  unfold engineerRadius, planarDistance. apply Vector2_length_ge. simpl. lra.
Qed.

Lemma mike_sarah_clear : clearOfEquipment [pump] [mike; sarah].
Proof.
  apply (clear_two_one mike sarah (mkModel (mkVector3 (-3) 0 0) 0)
           (mkModel (mkVector3 3 0 0) 0)); [reflexivity | reflexivity | |];
    rewrite (minDistance_radius pump 1.5) by (done || lra);
    unfold engineerRadius, planarDistance; apply Vector2_length_ge; simpl; lra.
Qed.

(** X1.  One pass of the frame loop of [part_000] over all engineers keeps
    them apart: if any two engineers with a loaded model are at least two
    engineer radii from each other before [animate], they are after it
    (with arrival callbacks that do not move the engineer). *)
Theorem animate_keeps_engineers_apart {Callback : Type}
    (invoke : Callback -> Engineer Callback -> Engineer Callback)
    (dt : R) (sc : Part000.Scene) :
  posePreserving invoke ->
  apart (Part000.engineers sc) ->
  apart (Part000.engineers (Part000.animate invoke dt sc).1).
Proof.
  intros Hpose Hap. unfold Part000.animate.
  apply (foldl_updateAt_invariant invoke dt (fun s => apart (Part000.engineers s)));
    [| done].
  intros acc i. by apply updateAt_apart.
Qed.

(** X2.  One pass of the frame loop of [part_000] keeps every engineer out
    of the clearance of every obstacle, and does not touch the obstacles. *)
Theorem animate_keeps_clear_of_equipment {Callback : Type}
    (invoke : Callback -> Engineer Callback -> Engineer Callback)
    (dt : R) (sc : Part000.Scene) :
  posePreserving invoke ->
  clearOfEquipment (Part000.collisionObjects sc) (Part000.engineers sc) ->
  Part000.collisionObjects (Part000.animate invoke dt sc).1 = Part000.collisionObjects sc /\
  clearOfEquipment (Part000.collisionObjects sc)
                   (Part000.engineers (Part000.animate invoke dt sc).1).
Proof.
  intros Hpose Hclear. unfold Part000.animate.
  assert (Hinv := foldl_updateAt_invariant invoke dt
    (fun s => Part000.collisionObjects s = Part000.collisionObjects sc /\
              clearOfEquipment (Part000.collisionObjects s) (Part000.engineers s))).
  simpl in Hinv. destruct (Hinv) with (l := seq 0 (length (Part000.engineers sc)))
    (acc := (sc, @nil Callback)) as [Hobjs Hc].
  - intros acc i [Ho Hc]. split.
    + by rewrite updateAt_collisionObjects.
    + by apply updateAt_clearOfEquipment.
  - by split.
  - split; [exact Hobjs |]. by rewrite <- Hobjs.
Qed.

Lemma animate_keeps_engineers_apart_witness :
  posePreserving runFixArrival /\ apart [mike; sarah] /\
  apart (Part000.engineers
           (Part000.animate runFixArrival (1 / 60)
              (Part000.mkScene [pump] [mike; sarah])).1).
Proof.
  split; [exact runFixArrival_posePreserving |]. split; [exact mike_sarah_apart |].
  exact (animate_keeps_engineers_apart runFixArrival (1 / 60)
           (Part000.mkScene [pump] [mike; sarah])
           runFixArrival_posePreserving mike_sarah_apart).
Defined.

Lemma animate_keeps_clear_of_equipment_witness :
  posePreserving runFixArrival /\ clearOfEquipment [pump] [mike; sarah] /\
  clearOfEquipment [pump]
    (Part000.engineers
       (Part000.animate runFixArrival (1 / 60)
          (Part000.mkScene [pump] [mike; sarah])).1).
Proof.
  split; [exact runFixArrival_posePreserving |]. split; [exact mike_sarah_clear |].
  exact (proj2 (animate_keeps_clear_of_equipment runFixArrival (1 / 60)
                  (Part000.mkScene [pump] [mike; sarah])
                  runFixArrival_posePreserving mike_sarah_clear)).
Defined.

(** ** Arrival callbacks over a run of frames *)

Section Trace.
Context {Callback : Type}.
Variable invoke : Callback -> Engineer Callback -> Engineer Callback.
Implicit Types (e : Engineer Callback) (engineers : list (Engineer Callback)).

(** A frame invokes nothing, or invokes the pending callback and leaves
    none pending. *)
Lemma update_trace_cases objs engineers (this : nat) (dt : R) e :
  ((Part000.update invoke objs engineers this dt e).2 = [] /\
   (onArrivalCallback (Part000.update invoke objs engineers this dt e).1 = None \/
    onArrivalCallback (Part000.update invoke objs engineers this dt e).1
    = onArrivalCallback e)) \/
  exists cb, onArrivalCallback e = Some cb /\
    (Part000.update invoke objs engineers this dt e).2 = [cb] /\
    onArrivalCallback (Part000.update invoke objs engineers this dt e).1 = None.
Proof.
  pose proof (update_onArrivalCallback invoke objs engineers this dt e) as Hcb.
  destruct (frame_cases e) as [Hw | [Hn | (t & m & [Hmv | Har])]].
  - left. split; [| done].
    by rewrite (update_working invoke objs engineers this dt e Hw).
  - left. split; [| done].
    by rewrite (update_rest invoke objs engineers this dt e Hn).
  - left. split; [| done].
    by rewrite (update_walk invoke objs engineers this dt e t m Hmv).
  - destruct (onArrivalCallback e) as [cb |] eqn:Hpending.
    + right. exists cb. split; [done |].
      rewrite (update_arrive invoke objs engineers this dt e t m Har), Hpending.
      simpl. split; [done |]. rewrite updateState_onArrivalCallback.
      case_match; rewrite ?setState_onArrivalCallback; done.
    + left. split; [| done].
      by rewrite (update_arrive invoke objs engineers this dt e t m Har), Hpending.
Qed.

End Trace.

(** X3.  Over any run of frames of one engineer of [part_000], whatever the
    scenes and the elapsed times, at most one arrival callback is invoked,
    and it is the one that was pending at the start of the run.  So a
    [moveTo] issued before arrival discards the callback of the earlier
    [moveTo]: only the later callback can ever be invoked. *)
Theorem simulate_invokes_at_most_pending {Callback : Type}
    (invoke : Callback -> Engineer Callback -> Engineer Callback) :
  (forall (frames : list (Frame Callback)) (e : Engineer Callback),
     (simulate invoke frames e).2 = [] \/
     exists cb, onArrivalCallback e = Some cb /\ (simulate invoke frames e).2 = [cb]) /\
  (forall objs1 objs2 engineers1 engineers2 (this : nat) (random1 random2 : R)
          (target1 target2 : Vector3) (onArrival1 onArrival2 : option Callback)
          (frames : list (Frame Callback)) (e : Engineer Callback),
     let e2 := Part000.moveTo objs2 engineers2 this random2 target2 onArrival2
                 (Part000.moveTo objs1 engineers1 this random1 target1 onArrival1 e) in
     (simulate invoke frames e2).2 = [] \/
     exists cb, onArrival2 = Some cb /\ (simulate invoke frames e2).2 = [cb]).
Proof.
  assert (Hgen : forall (frames : list (Frame Callback)) (e : Engineer Callback),
     (simulate invoke frames e).2 = [] \/
     exists cb, onArrivalCallback e = Some cb /\ (simulate invoke frames e).2 = [cb]).
  { intros frames.
    induction frames as [| f rest IH]; intros e; simpl; [by left |].
    destruct (update_trace_cases invoke (frame_objects f) (frame_engineers f) (frame_this f)
                (frame_deltaTime f) e) as [[Hnil Hcb] | (cb & Hpending & Hone & Hnone)].
    - destruct (Part000.update invoke (frame_objects f) (frame_engineers f) (frame_this f)
                  (frame_deltaTime f) e) as [e1 called1].
      simpl in Hnil, Hcb. subst called1.
      destruct Hcb as [Hnone | Hsame].
      + destruct (simulate_quiet invoke rest e1 Hnone) as [Hq _].
        destruct (simulate invoke rest e1) as [e2 called2]. simpl in *. by left.
      + destruct (IH e1) as [Hq | (cb & Hp & Hq)].
        * destruct (simulate invoke rest e1) as [e2 called2]. simpl in *. by left.
        * destruct (simulate invoke rest e1) as [e2 called2]. simpl in *.
          right. exists cb. split; [congruence | done].
    - destruct (Part000.update invoke (frame_objects f) (frame_engineers f) (frame_this f)
                  (frame_deltaTime f) e) as [e1 called1].
      simpl in Hone, Hnone. subst called1.
      destruct (simulate_quiet invoke rest e1 Hnone) as [Hq _].
      destruct (simulate invoke rest e1) as [e2 called2]. simpl in *. subst called2.
      right. by exists cb. }
  split; [exact Hgen |].
  intros objs1 objs2 engineers1 engineers2 this random1 random2 target1 target2
    onArrival1 onArrival2 frames e e2.
  destruct (Hgen frames e2) as [Hq | (cb & Hp & Hq)]; [by left |].
  right. exists cb. split; [exact Hp | exact Hq].
Qed.

(** ** Walking to the target *)

Section Progress.
Context {Callback : Type}.
Variable invoke : Callback -> Engineer Callback -> Engineer Callback.
Implicit Types (e : Engineer Callback) (engineers : list (Engineer Callback)).



(** What a walking frame leaves of the engineer. *)
Lemma update_walk_fields objs engineers (this : nat) (dt : R) e t m :
  Part000.movesTowards e t m ->
  (Part000.update invoke objs engineers this dt e).2 = [] /\
  targetPosition (Part000.update invoke objs engineers this dt e).1 = targetPosition e /\
  isWorking (Part000.update invoke objs engineers this dt e).1 = isWorking e /\
  isSpeaking (Part000.update invoke objs engineers this dt e).1 = isSpeaking e /\
  speed (Part000.update invoke objs engineers this dt e).1 = speed e /\
  onArrivalCallback (Part000.update invoke objs engineers this dt e).1
  = onArrivalCallback e /\
  model_position <$> model (Part000.update invoke objs engineers this dt e).1
  = Some (Part000.stepPosition objs engineers this (model_position m)
            (normalize (setY (subVectors t (model_position m)) 0))
            (Math_min (speed e) (planarDistance t (model_position m)))).
Proof.
  intros Hmv. rewrite (update_walk invoke objs engineers this dt e t m Hmv). simpl.
  unfold Part000.directionTo. rewrite direction_length.
  repeat split;
    case_decide;
    rewrite ?setState_targetPosition, ?setState_isWorking, ?setState_isSpeaking,
      ?setState_speed, ?setState_onArrivalCallback; done.
Qed.




End Progress.




(** ** Walking to the target in [main.js] *)

Section MainJsProgress.
Context {Callback : Type}.
Implicit Types (e : Engineer Callback).





End MainJsProgress.



(** X6.  Speaking and walking.  In [main.js] a frame of a speaking engineer
    moves nothing: the model and the target are as before, so the engineer
    stands still with its target pending until the speech ends.  In
    [part_000] a speaking engineer that is not working and is farther than
    0.5 from its target walks on: the frame takes the collision-resolved
    step and the state is walking (when the walking clip is loaded). *)
Theorem speaking_and_walking {Callback : Type}
    (invoke : Callback -> Engineer Callback -> Engineer Callback)
    (objs : list Obstacle) (engineers : list (Engineer Callback)) (this : nat)
    (dt : R) (e : Engineer Callback) :
  isSpeaking e = true ->
  (model (MainJs.update objs dt e) = model e /\
   targetPosition (MainJs.update objs dt e) = targetPosition e) /\
  (forall t m, Part000.movesTowards e t m ->
   model_position <$> model (Part000.update invoke objs engineers this dt e).1
   = Some (Part000.stepPosition objs engineers this (model_position m)
             (normalize (setY (subVectors t (model_position m)) 0))
             (Math_min (speed e) (planarDistance t (model_position m)))) /\
   (is_Some (clipOf e "walking") ->
    currentState (Part000.update invoke objs engineers this dt e).1 = "walking")).
Proof.
  intros Hs. split.
  - rewrite (mainjs_update_speaking objs dt e Hs). simpl.
    case_decide; rewrite ?setState_model, ?setState_targetPosition; done.
  - intros t m Hmv. split.
    + by destruct (update_walk_fields invoke objs engineers this dt e t m Hmv)
        as (_ & _ & _ & _ & _ & _ & Hpos).
    + rewrite clipOf_walking. intros Hc.
      exact (walk_state invoke objs engineers this dt e t m Hmv Hc).
Qed.

Lemma speaking_and_walking_witness :
  isSpeaking mikeSpeakingOneStep = true /\
  Part000.movesTowards mikeSpeakingOneStep (mkVector3 (-2) 0 0)
    (mkModel (mkVector3 (-3) 0 0) 0) /\
  model (MainJs.update [pump] (1 / 60) mikeSpeakingOneStep) = model mikeSpeakingOneStep /\
  currentState
    (Part000.update runFixArrival [pump] [mikeSpeakingOneStep] 0 (1 / 60)
       mikeSpeakingOneStep).1 = "walking".
Proof.
  assert (Hmv : Part000.movesTowards mikeSpeakingOneStep (mkVector3 (-2) 0 0)
                  (mkModel (mkVector3 (-3) 0 0) 0)).
  { apply (movesTowards_far mikeSpeakingOneStep _ _ 0.75); try done;
      [lra | unfold Part000.arrivalThreshold; lra | simpl; lra]. }
  destruct (speaking_and_walking runFixArrival [pump] [mikeSpeakingOneStep] 0 (1 / 60)
              mikeSpeakingOneStep eq_refl) as [[Hm _] Hp].
  destruct (Hp _ _ Hmv) as [_ Hst].
  split; [reflexivity |]. split; [exact Hmv |]. split; [exact Hm |].
  apply Hst. eexists. reflexivity.
Defined.

(** ** Loading the model and the clips *)

Section Loading.
Context {Callback : Type}.
Implicit Types (e : Engineer Callback).

(** While the engineer is idle the completion of a clip only registers the
    clip: the closing [setState('idle')] returns at once. *)
Lemma loadAnimation_loaded_idle (animName : string) e :
  currentState e = "idle" ->
  loadAnimation_loaded true animName e =
  set_animationsLoaded (S (animationsLoaded e))
    (set_animation (<[animName := clipAction]> (animations e))
       (currentAnimation e) (currentState e) e).
Proof.
  intros Hidle. unfold loadAnimation_loaded. simpl.
  case_decide; [| done].
  unfold setState. simpl. by rewrite decide_True.
Qed.

Lemma loadAnimations_idle (names : list string) :
  forall e, currentState e = "idle" ->
    currentState (loadAnimations names e) = "idle" /\
    currentAnimation (loadAnimations names e) = currentAnimation e /\
    model (loadAnimations names e) = model e /\
    animationsLoaded (loadAnimations names e) = (animationsLoaded e + length names)%nat /\
    forall k, animations (loadAnimations names e) !! k =
              if decide (k ∈ names) then Some clipAction else animations e !! k.
Proof.
  induction names as [| a names IH]; intros e Hidle.
  - split; [done |]. split; [done |]. split; [done |]. split; [simpl; lia |].
    intros k. case_decide as Hk; [by apply elem_of_nil in Hk | done].
  - unfold loadAnimations. cbn [foldl].
    rewrite (loadAnimation_loaded_idle a e Hidle).
    set (e1 := set_animationsLoaded _ _).
    destruct (IH e1) as (Hst & Han & Hmo & Hn & Hlook); [done |].
    change (foldl _ e1 names) with (loadAnimations names e1).
    split; [exact Hst |]. split; [exact Han |]. split; [exact Hmo |].
    split; [rewrite Hn; simpl; lia |].
    intros k. rewrite Hlook. simpl.
    destruct (decide (k ∈ names)) as [Hin | Hnin].
    + rewrite decide_True; [done | by right].
    + destruct (decide (k = a)) as [-> | Hne].
      * rewrite lookup_insert_eq. rewrite decide_True; [done | by left].
      * rewrite lookup_insert_ne by done.
        rewrite decide_False; [done |].
        intros Hin. apply elem_of_cons in Hin as [? | ?]; done.
Qed.

End Loading.

(** X7.  Once the base model and the three clips have loaded, in whatever
    order the clips complete, all four states have their clip, the engineer
    is idle and [animationsLoaded] is 4.  In [part_000] the standing clip is
    then playing and no other; in [main.js] no clip is playing and
    [currentAnimation] is still null, because the closing [setState('idle')]
    finds the engineer idle already and returns. *)
Theorem loading_completes {Callback : Type} (n : string) (p : Vector3) (r : string)
    (names : list string) :
  names ≡ₚ ["walking"; "talking"; "working"] ->
  (let e : Engineer Callback :=
     loadAnimations names (Part000.loadModel_loaded true (Engineer_new n p r)) in
   currentState e = "idle" /\ currentAnimation e = Some "standing" /\
   animationsLoaded e = 4%nat /\
   model e = Some (mkModel p 0) /\
   (forall s, s ∈ states -> is_Some (clipOf e s)) /\
   (forall k a, animations e !! k = Some a ->
                act_running a = bool_decide (k = "standing"))) /\
  (let e : Engineer Callback :=
     loadAnimations names (MainJs.loadModel_loaded true (Engineer_new n p r)) in
   currentState e = "idle" /\ currentAnimation e = None /\
   animationsLoaded e = 4%nat /\
   model e = Some (mkModel p 0) /\
   (forall s, s ∈ states -> is_Some (clipOf e s)) /\
   (forall k a, animations e !! k = Some a -> act_running a = false)).
Proof.
  intros Hperm.
  assert (Hin : forall k : string, k ∈ names <-> k ∈ ["walking"; "talking"; "working"]).
  { intros k. by rewrite Hperm. }
  assert (Hlen : length names = 3%nat) by (by rewrite Hperm).
  assert (Hstanding : ("standing" : string) ∉ names).
  { rewrite Hin. intros H. repeat (apply elem_of_cons in H as [H | H]; [done |]).
    by apply elem_of_nil in H. }
  assert (Hclips : forall e0 : Engineer Callback,
    is_Some (animations e0 !! "standing") ->
    (forall k, animations (loadAnimations names e0) !! k =
               if decide (k ∈ names) then Some clipAction else animations e0 !! k) ->
    forall s, s ∈ states -> is_Some (clipOf (loadAnimations names e0) s)).
  { intros e0 Hst Hlook s Hs. unfold states in Hs.
    repeat (apply elem_of_cons in Hs as [-> | Hs]);
      [| | | | by apply elem_of_nil in Hs].
    - rewrite clipOf_idle, Hlook. by rewrite decide_False.
    - rewrite clipOf_walking, Hlook. rewrite decide_True; [done |].
      apply Hin. by left.
    - rewrite clipOf_talking, Hlook. rewrite decide_True; [done |].
      apply Hin. right. by left.
    - rewrite clipOf_working, Hlook. rewrite decide_True; [done |].
      apply Hin. right. right. by left. }
  split.
  - intros e.
    destruct (loadAnimations_idle names
                (Part000.loadModel_loaded true (Engineer_new n p r) : Engineer Callback))
      as (Hst & Han & Hmo & Hn & Hlook); [done |].
    fold e in Hst, Han, Hmo, Hn, Hlook.
    split; [exact Hst |]. split; [exact Han |].
    split; [rewrite Hn, Hlen; reflexivity |]. split; [exact Hmo |]. split.
    + apply Hclips; [| exact Hlook]. eexists. apply lookup_insert_eq.
    + intros k a. rewrite Hlook.
      destruct (decide (k ∈ names)) as [Hk | Hk].
      * intros [= <-]. simpl. rewrite bool_decide_eq_false_2; [done |].
        intros ->. done.
      * simpl. destruct (decide (k = "standing")) as [-> | Hne].
        -- rewrite lookup_insert_eq. intros [= <-]. reflexivity.
        -- rewrite lookup_insert_ne by done. by rewrite lookup_empty.
  - intros e.
    destruct (loadAnimations_idle names
                (MainJs.loadModel_loaded true (Engineer_new n p r) : Engineer Callback))
      as (Hst & Han & Hmo & Hn & Hlook); [done |].
    fold e in Hst, Han, Hmo, Hn, Hlook.
    split; [exact Hst |]. split; [exact Han |].
    split; [rewrite Hn, Hlen; reflexivity |]. split; [exact Hmo |]. split.
    + apply Hclips; [| exact Hlook]. eexists. apply lookup_insert_eq.
    + intros k a. rewrite Hlook.
      destruct (decide (k ∈ names)) as [Hk | Hk].
      * by intros [= <-].
      * simpl. destruct (decide (k = "standing")) as [-> | Hne].
        -- rewrite lookup_insert_eq. by intros [= <-].
        -- rewrite lookup_insert_ne by done. by rewrite lookup_empty.
Qed.

Lemma loading_completes_witness :
  ["talking"; "working"; "walking"] ≡ₚ ["walking"; "talking"; "working"] /\
  currentAnimation
    (loadAnimations ["talking"; "working"; "walking"]
       (Part000.loadModel_loaded true
          (Engineer_new "Mike" (mkVector3 (-3) 0 0) "Air Side Specialist"))
     : Engineer FixArrival) = Some "standing" /\
  currentAnimation
    (loadAnimations ["talking"; "working"; "walking"]
       (MainJs.loadModel_loaded true
          (Engineer_new "Mike" (mkVector3 (-3) 0 0) "Air Side Specialist"))
     : Engineer FixArrival) = None.
Proof.
  assert (Hperm : ["talking"; "working"; "walking"]
                  ≡ₚ ["walking"; "talking"; "working"]).
  { symmetry. apply Permutation_cons_append. }
  destruct (loading_completes (Callback := FixArrival) "Mike" (mkVector3 (-3) 0 0)
              "Air Side Specialist" _ Hperm) as [(_ & Hp & _) (_ & Hm & _)].
  split; [exact Hperm |]. split; [exact Hp | exact Hm].
Defined.

(** X8.  A successful [setState] (both scripts): when the engineer is not in
    state [s] and the clip of [s] is loaded, the engineer enters [s], the
    clip of [s] is the current animation and the only action running, with
    time scale and weight 1; the set of loaded clips is unchanged; calling
    [setState s] again changes nothing. *)
Theorem setState_switches {Callback : Type} (e : Engineer Callback)
    (s animName : string) :
  currentState e <> s ->
  stateAnimationMap !! s = Some animName ->
  is_Some (animations e !! animName) ->
  currentState (setState s e) = s /\
  currentAnimation (setState s e) = Some animName /\
  dom (animations (setState s e)) = dom (animations e) /\
  (forall k a, animations (setState s e) !! k = Some a ->
               act_running a = bool_decide (k = animName)) /\
  (exists a, animations (setState s e) !! animName = Some a /\
             act_timeScale a = 1 /\ act_weight a = 1) /\
  setState s (setState s e) = setState s e.
Proof.
  intros Hne Hs [a0 Ha0].
  assert (Heq : setState s e =
    set_animation
      (alter (fun newAction =>
                action_play
                  (action_setEffectiveWeight 1
                     (action_setEffectiveTimeScale 1 (action_reset newAction))))
             animName (action_stop <$> animations e))
      (Some animName) s e).
  { unfold setState. by rewrite decide_False, Hs, Ha0. }
  rewrite Heq. simpl.
  split; [done |]. split; [done |]. split.
  { by rewrite dom_alter_L, dom_fmap_L. }
  split.
  { intros k a. rewrite lookup_alter. case_decide; subst.
    - rewrite lookup_fmap, Ha0. simpl. intros [= <-]. simpl.
      by rewrite bool_decide_eq_true_2.
    - rewrite lookup_fmap. destruct (animations e !! k); simpl; [| done].
      intros [= <-]. simpl. by rewrite bool_decide_eq_false_2. }
  split.
  { eexists. rewrite lookup_alter, decide_True by done.
    rewrite lookup_fmap, Ha0. simpl. by repeat split. }
  unfold setState at 1. simpl. by rewrite decide_True.
Qed.

Lemma setState_switches_witness :
  currentState mike <> "walking" /\
  currentState (setState "walking" mike) = "walking" /\
  currentAnimation (setState "walking" mike) = Some "walking".
Proof.
  assert (Hne : currentState mike <> "walking") by done.
  assert (Hclip : is_Some (animations mike !! "walking")) by (eexists; reflexivity).
  destruct (setState_switches mike "walking" "walking" Hne eq_refl Hclip)
    as (Hst & Han & _).
  split; [exact Hne |]. split; [exact Hst | exact Han].
Defined.

(** ** The smoothed turn *)

Section Turn.




End Turn.



(** ** The consistency of a reachable engineer *)

Section Consistency.
Context {Callback : Type}.
Implicit Types (e : Engineer Callback).

Lemma stateAnimationMap_Some (s animName : string) :
  stateAnimationMap !! s = Some animName ->
  s ∈ states /\ (s = "idle" -> animName = "standing").
Proof.
  unfold stateAnimationMap, states.
  rewrite !lookup_insert_Some, lookup_singleton_Some.
  intros [[<- <-] | [? [[<- <-] | [? [[<- <-] | [? [<- <-]]]]]]].
  - split; [by left | done].
  - split; [right; by left | done].
  - split; [right; right; by left | done].
  - split; [right; right; right; by left | done].
Qed.

(** A write that leaves the animation state, the pose and the target alone
    keeps the engineer consistent. *)
Lemma consistent_agree e e' :
  speed e' = speed e -> totalAnimations e' = totalAnimations e ->
  currentState e' = currentState e -> targetPosition e' = targetPosition e ->
  model e' = model e -> position e' = position e ->
  animations e' = animations e -> currentAnimation e' = currentAnimation e ->
  Consistent e -> Consistent e'.
Proof.
  intros Hsp Htot Hst Ht Hm Hp Ha Hc [].
  constructor; rewrite ?Hsp, ?Htot, ?Hst, ?Ht, ?Hm, ?Hp, ?Ha, ?Hc; done.
Qed.

Lemma consistent_set_targetPosition (t : option Vector3) e :
  (forall t', t = Some t' -> vy t' = 0) ->
  Consistent e -> Consistent (set_targetPosition t e).
Proof. intros Ht []. constructor; simpl; done. Qed.

Lemma consistent_set_model (m' : Model) e :
  is_Some (model e) ->
  vy (model_position m') = 0 \/ vy (model_position m') = vy (position e) ->
  Consistent e -> Consistent (set_model (Some m') e).
Proof.
  intros [m Hm] Hy []. constructor; simpl; try done.
  intros m0 [= <-]. done.
Qed.

Lemma consistent_setState (s : string) e : Consistent e -> Consistent (setState s e).
Proof.
  intros Hc. unfold setState.
  case_decide as Hne; [done |].
  destruct (stateAnimationMap !! s) as [animName |] eqn:Hs; [| done].
  destruct (animations e !! animName) as [a0 |] eqn:Ha0; [| done].
  destruct (stateAnimationMap_Some s animName Hs) as [Hin Hidle].
  destruct Hc.
  constructor;
    cbn [set_animation speed totalAnimations currentState targetPosition model
         position animations currentAnimation]; try done.
  - intros Hm. destruct (cons_unloaded0 Hm) as (Hempty & _).
    by rewrite Hempty, lookup_empty in Ha0.
  - intros Hst. right. by rewrite (Hidle Hst).
  - intros k [= <-]. rewrite lookup_alter, decide_True by done.
    by rewrite lookup_fmap, Ha0.
  - intros k a. rewrite lookup_alter. case_decide; subst; [done |].
    rewrite lookup_fmap. destruct (animations e !! k); simpl; [| done].
    by intros [= <-].
Qed.

Lemma consistent_loadAnimation (hasClip : bool) (animName : string) e :
  is_Some (model e) -> Consistent e ->
  Consistent (loadAnimation_loaded hasClip animName e).
Proof.
  intros [m Hm] Hc. unfold loadAnimation_loaded.
  destruct hasClip; [| done].
  assert (Hc2 : Consistent
    (set_animationsLoaded
       (S (animationsLoaded
             (set_animation (<[animName := clipAction]> (animations e))
                (currentAnimation e) (currentState e) e)))
       (set_animation (<[animName := clipAction]> (animations e))
          (currentAnimation e) (currentState e) e))).
  { destruct Hc. constructor; simpl; try done.
    - intros Hn. congruence.
    - intros k Hk. destruct (decide (k = animName)) as [-> | Hne].
      + by rewrite lookup_insert_eq.
      + rewrite lookup_insert_ne by done. by apply cons_loaded0.
    - intros k a. destruct (decide (k = animName)) as [-> | Hne].
      + rewrite lookup_insert_eq. by intros [= <-].
      + rewrite lookup_insert_ne by done. apply cons_running0. }
  simpl. case_decide; [| done]. by apply consistent_setState.
Qed.

Lemma consistent_loadModel (hasClip : bool) e :
  model e = None -> Consistent e -> Consistent (Part000.loadModel_loaded hasClip e).
Proof.
  intros Hm Hc. destruct (cons_unloaded e Hc Hm) as (Hempty & Hcur & Hidle).
  destruct Hc. unfold Part000.loadModel_loaded.
  destruct hasClip; constructor; simpl; try done.
  - by left.
  - intros m [= <-]. by right.
  - intros _. by right.
  - intros k [= <-]. by rewrite lookup_insert_eq.
  - intros k a. rewrite Hempty.
    destruct (decide (k = "standing")) as [-> | Hne]; [done |].
    rewrite lookup_insert_ne by done. by rewrite lookup_empty.
  - intros m [= <-]. by right.
Qed.

Lemma consistent_updateState e : Consistent e -> Consistent (Part000.updateState e).
Proof.
  intros Hc. unfold Part000.updateState.
  repeat first [ case_decide | case_match ]; try done; by apply consistent_setState.
Qed.

Lemma stepPosition_vy objs (engineers : list (Engineer Callback)) (this : nat)
    (p dir : Vector3) (s : R) :
  vy (Part000.stepPosition objs engineers this p dir s) = 0 \/
  vy (Part000.stepPosition objs engineers this p dir s) = vy p.
Proof.
  unfold Part000.stepPosition.
  repeat case_match; simpl; [by left | right; ring | right; ring | by right].
Qed.

End Consistency.

Section ReachableConsistent.

Lemma consistent_new (n : string) (p : Vector3) (r : string) :
  Consistent (Engineer_new n p r : Engineer FixArrival).
Proof.
  constructor; simpl; try done.
  - by left.
  - by left.
Qed.

Lemma consistent_runFixArrival (cb : FixArrival) (e : Engineer FixArrival) :
  Consistent e -> Consistent (runFixArrival cb e).
Proof. destruct cb. by apply consistent_agree. Qed.

Lemma consistent_update objs engineers (this : nat) (dt : R) (e : Engineer FixArrival) :
  Consistent e ->
  Consistent (Part000.update runFixArrival objs engineers this dt e).1.
Proof.
  intros Hc.
  assert (Hc0 : Consistent (updateMixer dt e)) by (by apply (consistent_agree e)).
  destruct (frame_cases e) as [Hw | [Hn | (t & m & [Hmv | Har])]].
  - rewrite (update_working runFixArrival objs engineers this dt e Hw). simpl.
    by apply consistent_updateState.
  - rewrite (update_rest runFixArrival objs engineers this dt e Hn). simpl.
    by apply consistent_updateState.
  - rewrite (update_walk runFixArrival objs engineers this dt e t m Hmv). simpl.
    destruct Hmv as (_ & Hm & _).
    assert (Hc1 : Consistent (if decide (currentState e = "walking")
                              then updateMixer dt e
                              else setState "walking" (updateMixer dt e))).
    { case_decide; [done |]. by apply consistent_setState. }
    apply consistent_set_model; [| | exact Hc1].
    + case_decide; rewrite ?setState_model; simpl; by rewrite Hm.
    + simpl.
      assert (Hpos : position (if decide (currentState e = "walking")
                               then updateMixer dt e
                               else setState "walking" (updateMixer dt e)) = position e).
      { case_decide; [done |].
        destruct (setState_frame "walking" (updateMixer dt e)) as (a & an & st & ->).
        reflexivity. }
      rewrite Hpos.
      destruct (stepPosition_vy objs engineers this (model_position m)
                  (normalize (Part000.directionTo t (model_position m)))
                  (Math_min (speed e)
                     (Vector3_length (Part000.directionTo t (model_position m)))))
        as [-> | ->]; [by left |].
      by apply (cons_ground e Hc).
  - rewrite (update_arrive runFixArrival objs engineers this dt e t m Har).
    assert (Hc1 : Consistent (set_targetPosition None (updateMixer dt e))).
    { by apply consistent_set_targetPosition. }
    destruct (onArrivalCallback e) as [cb |]; simpl.
    + assert (Hc2 : Consistent
          (set_onArrivalCallback None
             (runFixArrival cb (set_targetPosition None (updateMixer dt e))))).
      { apply (consistent_agree (runFixArrival cb
                                   (set_targetPosition None (updateMixer dt e))));
          try done.
        by apply consistent_runFixArrival. }
      apply consistent_updateState. case_match; [| done].
      by apply consistent_setState.
    + apply consistent_updateState. case_match; [| done].
      by apply consistent_setState.
Qed.

End ReachableConsistent.

(** X10.  Every state an engineer of [part_000] can reach from its
    constructor (through the completion of [loadModel] and of the clips,
    [moveTo], [speak], [work], their timers and frames of [update] with the
    arrival callback of the fix request) is consistent: the speed is 0.05;
    the state is one of the four states; a target lies on the ground; the
    current animation is the clip of the current state, loaded, once the
    engineer has left its initial idle state; and at most one action is
    running, the current animation. *)
Theorem reachable_consistent (e : Engineer FixArrival) :
  Reachable e ->
  Consistent e /\
  0 <= speed e /\
  (forall k1 k2 a1 a2,
     animations e !! k1 = Some a1 -> act_running a1 = true ->
     animations e !! k2 = Some a2 -> act_running a2 = true -> k1 = k2).
Proof.
  intros Hr.
  assert (Hc : Consistent e).
  { induction Hr.
    - apply consistent_new.
    - by apply consistent_loadModel.
    - by apply consistent_loadAnimation.
    - unfold Part000.moveTo.
      apply (consistent_agree
               (set_targetPosition
                  (Some (setY (if Part000.checkCollision objs engineers this targetPos
                               then Part000.deflect random targetPos
                               else targetPos) 0)) e)); try done.
      apply consistent_set_targetPosition; [| done]. by intros t' [= <-].
    - by apply (consistent_agree e).
    - by apply (consistent_agree e).
    - by apply (consistent_agree e).
    - by apply (consistent_agree e).
    - by apply consistent_update. }
  split; [exact Hc |]. split.
  - rewrite (cons_speed e Hc). lra.
  - intros k1 k2 a1 a2 H1 Hr1 H2 Hr2.
    pose proof (cons_running e Hc k1 a1 H1 Hr1) as E1.
    pose proof (cons_running e Hc k2 a2 H2 Hr2) as E2.
    congruence.
Qed.

Lemma reachable_consistent_witness : Reachable mike /\ Consistent mike.
Proof.
  assert (Hr : Reachable mike).
  { unfold mike, loadedAt.
    apply reach_clip; [| by eexists | set_solver].
    apply reach_clip; [| by eexists | set_solver].
    apply reach_clip; [| by eexists | set_solver].
    apply reach_model; [| reflexivity].
    apply reach_new. }
  split; [exact Hr |]. exact (proj1 (reachable_consistent mike Hr)).
Defined.

(** ** The equipment table *)

Section Equipment.
Implicit Types (d : EquipmentTable) (x : EquipmentData).

Lemma keys_setEquipment id f d : Object_keys (setEquipment id f d) = Object_keys d.
Proof.
  unfold Object_keys. induction d as [| [k x] d IH]; [done |].
  cbn [setEquipment]. case_decide; rewrite !fmap_cons; [done | by rewrite IH].
Qed.

Lemma get_setEquipment id f d :
  getEquipment id (setEquipment id f d) = f <$> getEquipment id d.
Proof.
  induction d as [| [k x] d IH]; [done |].
  cbn [setEquipment getEquipment]. case_decide as Hk; cbn [getEquipment].
  - by rewrite decide_True.
  - by rewrite decide_False.
Qed.

Lemma get_setEquipment_ne id id' f d :
  id <> id' -> getEquipment id' (setEquipment id f d) = getEquipment id' d.
Proof.
  intros Hne. induction d as [| [k x] d IH]; [done |].
  simpl. case_decide as Hk; simpl.
  - subst k. by rewrite !decide_False.
  - by rewrite IH.
Qed.

Lemma setEquipment_id id f d x :
  getEquipment id d = Some x -> f x = x -> setEquipment id f d = d.
Proof.
  intros Hg Hf. induction d as [| [k y] d IH]; [done |].
  simpl in *. case_decide.
  - injection Hg as ->. by rewrite Hf.
  - by rewrite IH.
Qed.

Lemma setEquipment_twice id f g d :
  setEquipment id g (setEquipment id f d) = setEquipment id (g ∘ f) d.
Proof.
  induction d as [| [k y] d IH]; [done |].
  simpl. case_decide; simpl; rewrite ?decide_True, ?decide_False by done; [done |].
  by rewrite IH.
Qed.

Lemma coherent_setEquipment id f d :
  (forall x, coherentEntry (f x)) -> coherent d -> coherent (setEquipment id f d).
Proof.
  intros Hf. unfold coherent. induction 1 as [| [k y] d Hy Hd IH]; [done |].
  simpl. case_decide; constructor; simpl; auto.
Qed.

Lemma coherent_get id d x : coherent d -> getEquipment id d = Some x -> coherentEntry x.
Proof.
  unfold coherent. induction 1 as [| [k y] d Hy Hd IH]; [done |].
  simpl. case_decide; [by intros [= <-] | done].
Qed.

Lemma get_is_Some id d : id ∈ Object_keys d <-> is_Some (getEquipment id d).
Proof.
  unfold Object_keys. induction d as [| [k y] d IH]; simpl.
  - split; [by intros ?%elem_of_nil | by intros [? ?]].
  - rewrite elem_of_cons. case_decide as Hk.
    + split; [by eexists | by left].
    + rewrite IH. split; [by intros [? | ?] | by right].
Qed.

Lemma get_elem_of id d x :
  NoDup (Object_keys d) -> getEquipment id d = Some x <-> (id, x) ∈ d.
Proof.
  unfold Object_keys. induction d as [| [k y] d IH]; simpl.
  - intros _. split; [done | by intros ?%elem_of_nil].
  - intros [Hk Hd]%NoDup_cons. rewrite elem_of_cons. case_decide as Hid.
    + subst k. split; [by intros [= <-]; left |].
      intros [[= <-] | Hin]; [done |].
      destruct Hk. apply list_elem_of_fmap. by exists (id, x).
    + rewrite (IH Hd). split; [by right |].
      intros [[= <- <-] | Hin]; done.
Qed.

Lemma issues_spec id d :
  NoDup (Object_keys d) ->
  id ∈ issues d <-> exists x, getEquipment id d = Some x /\ eq_hasIssue x = true.
Proof.
  intros Hd. unfold issues. rewrite list_elem_of_fmap. split.
  - intros ([k x] & -> & [Hx Hin]%list_elem_of_filter).
    exists x. split; [by apply get_elem_of | done].
  - intros (x & Hg & Hx). exists (id, x). split; [done |].
    apply list_elem_of_filter. split; [done | by apply get_elem_of].
Qed.

Lemma coherentEntry_markFault x : coherentEntry (markFault x).
Proof. by left. Qed.

Lemma coherentEntry_markRunning x : coherentEntry (markRunning x).
Proof. by right. Qed.

Lemma createIssue_keys id d : Object_keys (createIssue id d) = Object_keys d.
Proof. unfold createIssue. case_match; [apply keys_setEquipment | done]. Qed.

Lemma createIssue_coherent id d : coherent d -> coherent (createIssue id d).
Proof.
  unfold createIssue. case_match; [| done].
  apply coherent_setEquipment, coherentEntry_markFault.
Qed.


Lemma runEvent_invariant d0 ev d (e : Engineer FixArrival) :
  validEvent d0 ev -> Object_keys d = Object_keys d0 -> coherent d ->
  exists d' e', runEvent ev (d, e) = Some (d', e') /\
    Object_keys d' = Object_keys d0 /\ coherent d'.
Proof.
  intros Hv Hk Hc. destruct ev as [id | index random | id name]; simpl in *.
  - eexists _, _. split; [done |].
    split; [by rewrite createIssue_keys | by apply createIssue_coherent].
  - unfold randomIssue.
    assert (Hlen : (index < length (Object_keys d))%nat).
    { rewrite Hk. unfold Object_keys. by rewrite length_fmap. }
    destruct (lookup_lt_is_Some_2 _ _ Hlen) as [k Hik]. rewrite Hik.
    assert (Hin : k ∈ Object_keys d) by (by eapply list_elem_of_lookup_2).
    apply get_is_Some in Hin as [x Hx]. rewrite Hx.
    eexists _, _. split; [done |].
    case_match; [| done].
    split; [by rewrite createIssue_keys | by apply createIssue_coherent].
  - unfold repairTimer.
    rewrite <- Hk in Hv. apply get_is_Some in Hv as [x Hx]. rewrite Hx.
    destruct (eq_hasIssue x); eexists _, _; (split; [done |]); [| done].
    split; [by rewrite keys_setEquipment |].
    apply coherent_setEquipment; [apply coherentEntry_markRunning | done].
Qed.

End Equipment.

(** X11.  On a table with distinct keys whose entries have status and flag
    in agreement, as [equipmentData] has, every sequence of issues created,
    random issues and repairs runs without an exception and keeps the keys
    and the agreement: an entry has [hasIssue] exactly when its status is
    FAULT, and else it is Running; and the status query lists exactly the
    ids whose status is FAULT. *)
Theorem equipment_events_coherent (d0 : EquipmentTable) (events : list EquipmentEvent)
    (e : Engineer FixArrival) :
  NoDup (Object_keys d0) -> coherent d0 ->
  Forall (validEvent d0) events ->
  exists d' e', runEvents events (d0, e) = Some (d', e') /\
    Object_keys d' = Object_keys d0 /\
    coherent d' /\
    (forall id, id ∈ issues d' <->
                exists x, getEquipment id d' = Some x /\ eq_status x = "FAULT").
Proof.
  intros Hnd Hc0 Hev.
  assert (Hrun : forall d e0, Object_keys d = Object_keys d0 -> coherent d ->
            exists d' e', runEvents events (d, e0) = Some (d', e') /\
              Object_keys d' = Object_keys d0 /\ coherent d').
  { induction Hev as [| ev events Hv Hev IH]; intros d e0 Hk Hc.
    - by exists d, e0.
    - destruct (runEvent_invariant d0 ev d e0 Hv Hk Hc) as (d1 & e1 & Hr & Hk1 & Hc1).
      simpl. rewrite Hr. by apply IH. }
  destruct (Hrun d0 e eq_refl Hc0) as (d' & e' & Hr & Hk & Hc).
  exists d', e'. split; [done |]. split; [done |]. split; [done |].
  intros id. rewrite issues_spec by (by rewrite Hk).
  split; intros (x & Hg & Hx); exists x; (split; [done |]);
    destruct (coherent_get id d' x Hc Hg) as [[? ?] | [? ?]]; congruence.
Qed.

Lemma equipment_events_coherent_witness :
  exists d' e', runEvents [CreateIssue "pump1"; RandomIssue 0 0.9; Repair "pump1" "pump"]
                  (equipmentData, mike) = Some (d', e') /\
    Object_keys d' = Object_keys equipmentData /\
    coherent d' /\
    (forall id, id ∈ issues d' <->
                exists x, getEquipment id d' = Some x /\ eq_status x = "FAULT").
Proof.
  apply equipment_events_coherent.
  - apply (bool_decide_unpack _). by vm_compute.
  - unfold coherent, equipmentData. repeat constructor; by right.
  - apply Forall_cons; split; [exact I |].
    apply Forall_cons; split; [simpl; lia |].
    apply Forall_cons; split; [| apply Forall_nil_2].
    unfold validEvent. apply (bool_decide_unpack _). by vm_compute.
Defined.

(** X12.  A repair undoes an issue: on a table whose entries have status and
    flag in agreement, creating an issue on an equipment that has none and
    running the repair timer gives the table back, and the engineer
    announces the repair; on an equipment with no issue the repair timer
    changes nothing and the engineer says nothing. *)
Theorem repair_undoes_createIssue (equipmentId equipmentName : string)
    (d : EquipmentTable) (x : EquipmentData) (e : Engineer FixArrival) :
  coherent d -> getEquipment equipmentId d = Some x -> eq_hasIssue x = false ->
  repairTimer equipmentId equipmentName (createIssue equipmentId d) e =
    Some (d, speak (equipmentName +:+ " is fixed! Back to normal operation.") e) /\
  repairTimer equipmentId equipmentName d e = Some (d, e).
Proof.
  intros Hc Hg Hx. split.
  - unfold repairTimer, createIssue. rewrite Hg, get_setEquipment, Hg. simpl.
    rewrite setEquipment_twice.
    rewrite (setEquipment_id equipmentId (markRunning ∘ markFault) d x Hg); [done |].
    destruct (coherent_get equipmentId d x Hc Hg) as [[? ?] | [? Hs]]; [congruence |].
    destruct x as [r s i]. simpl in *. unfold markRunning. simpl. by rewrite Hs, Hx.
  - unfold repairTimer. by rewrite Hg, Hx.
Qed.

Lemma repair_undoes_createIssue_witness :
  repairTimer "pump1" "pump" (createIssue "pump1" equipmentData) mike =
    Some (equipmentData, speak ("pump" +:+ " is fixed! Back to normal operation.") mike) /\
  repairTimer "pump1" "pump" equipmentData mike = Some (equipmentData, mike).
Proof.
  apply (repair_undoes_createIssue "pump1" "pump" equipmentData
           (mkEquipmentData [("flow", 95); ("pressure", 6.2); ("power", 15.5)]
              "Running" false) mike).
  - unfold coherent, equipmentData. repeat constructor; by right.
  - reflexivity.
  - reflexivity.
Defined.
